(** * Neon Snake: the game-state machine of [src/index.tsx]

    A shallow embedding of the game logic of the [App] component: the grid
    constants, the food placer [getRandomPosition], the key handler
    [handleKeyDown], the tick [moveSnake], [startGame], and the two
    high-score effects.  The React state cells and refs of [App] are the
    fields of one record, and every handler is a function on that record.

    Numbers are JavaScript doubles in the source; every number of the game
    logic is an integer far below 2^53, so they are modelled by [Z].  The
    high score is the exception: the load effect sets it to whatever
    [parseInt] reads from the storage, which is [NaN] for a string that is
    not a number, so it is a [JsNumber].

    [Math.random] is modelled by an oracle [rnd : nat -> Z]: [rnd n] is the
    value of the [n]-th evaluation of [Math.floor(Math.random() * GRID_SIZE)]
    since the page was loaded, and the field [calls] of the state counts the
    evaluations made so far.  The unbounded [while] loop of the food placer
    takes a fuel argument; running out of fuel is the outcome [OutOfFuel]. *)

From Stdlib Require Import ZArith List Bool Lia String Ascii.
Import ListNotations.
Open Scope Z_scope.

(** ** Constants and types *)

Definition GRID_SIZE : Z := 21.
Definition BOUNDARY : Z := (GRID_SIZE - 1) / 2.

Inductive SpeedName := SLOW | MEDIUM | FAST.

Definition SPEEDS (n : SpeedName) : Z :=
  match n with
  | SLOW => 200
  | MEDIUM => 120
  | FAST => 70
  end.

Inductive ViewMode := THIRD_PERSON | FIRST_PERSON.
Inductive GameState := MENU | PLAYING | GAME_OVER.

Definition Cell : Type := Z * Z.
Definition Direction : Type := Z * Z.

Definition GameState_eqb (a b : GameState) : bool :=
  match a, b with
  | MENU, MENU | PLAYING, PLAYING | GAME_OVER, GAME_OVER => true
  | _, _ => false
  end.

(** [a[0] === b[0] && a[1] === b[1]] *)
Definition cellEqb (a b : Cell) : bool :=
  (fst a =? fst b) && (snd a =? snd b).

(** Outcome of a handler: a new state, an uncaught [TypeError] (reading
    [head[0]] of an empty snake), or a loop that has not finished within
    the fuel. *)
Inductive Res (A : Type) : Type :=
| Ok (a : A)
| TypeError
| OutOfFuel.
Arguments Ok {A} a.
Arguments TypeError {A}.
Arguments OutOfFuel {A}.

Definition bind {A B : Type} (r : Res A) (k : A -> Res B) : Res B :=
  match r with
  | Ok a => k a
  | TypeError => TypeError
  | OutOfFuel => OutOfFuel
  end.

Notation "x <- r ;; k" := (bind r (fun x => k))
  (at level 61, r at next level, right associativity).

(** A number as the high score holds it: an integer, or the [NaN] that
    [parseInt] returns for a string that does not start with a number. *)
Inductive JsNumber :=
| Num (z : Z)
| NaN.

(** [a > b] and [a >= b]: false as soon as an operand is [NaN]. *)
Definition JsNumber_gtb (a b : JsNumber) : bool :=
  match a, b with
  | Num x, Num y => x >? y
  | _, _ => false
  end.

Definition JsNumber_geb (a b : JsNumber) : bool :=
  match a, b with
  | Num x, Num y => x >=? y
  | _, _ => false
  end.

(** ** The state of [App] *)

Record State := mkState {
  gameState : GameState;
  speed : Z;
  score : Z;
  highScore : JsNumber;
  viewMode : ViewMode;
  snake : list Cell;
  food : Cell;
  direction : Direction;
  directionRef : Direction;
  moveQueue : list Direction;
  (** [localStorage['snake_highscore']], as the number [parseInt] reads
      from it; [None] when the key is absent or holds the empty string *)
  storage : option JsNumber;
  (** evaluations of [Math.floor(Math.random() * GRID_SIZE)] so far *)
  calls : nat
}.

Definition setGameState (v : GameState) (s : State) : State :=
  mkState v (speed s) (score s) (highScore s) (viewMode s) (snake s) (food s)
          (direction s) (directionRef s) (moveQueue s) (storage s) (calls s).
Definition setSpeed (v : Z) (s : State) : State :=
  mkState (gameState s) v (score s) (highScore s) (viewMode s) (snake s) (food s)
          (direction s) (directionRef s) (moveQueue s) (storage s) (calls s).
Definition setScore (v : Z) (s : State) : State :=
  mkState (gameState s) (speed s) v (highScore s) (viewMode s) (snake s) (food s)
          (direction s) (directionRef s) (moveQueue s) (storage s) (calls s).
Definition setHighScore (v : JsNumber) (s : State) : State :=
  mkState (gameState s) (speed s) (score s) v (viewMode s) (snake s) (food s)
          (direction s) (directionRef s) (moveQueue s) (storage s) (calls s).
Definition setViewMode (v : ViewMode) (s : State) : State :=
  mkState (gameState s) (speed s) (score s) (highScore s) v (snake s) (food s)
          (direction s) (directionRef s) (moveQueue s) (storage s) (calls s).
Definition setSnake (v : list Cell) (s : State) : State :=
  mkState (gameState s) (speed s) (score s) (highScore s) (viewMode s) v (food s)
          (direction s) (directionRef s) (moveQueue s) (storage s) (calls s).
Definition setFood (v : Cell) (s : State) : State :=
  mkState (gameState s) (speed s) (score s) (highScore s) (viewMode s) (snake s) v
          (direction s) (directionRef s) (moveQueue s) (storage s) (calls s).
Definition setDirection (v : Direction) (s : State) : State :=
  mkState (gameState s) (speed s) (score s) (highScore s) (viewMode s) (snake s) (food s)
          v (directionRef s) (moveQueue s) (storage s) (calls s).
Definition setDirectionRef (v : Direction) (s : State) : State :=
  mkState (gameState s) (speed s) (score s) (highScore s) (viewMode s) (snake s) (food s)
          (direction s) v (moveQueue s) (storage s) (calls s).
Definition setMoveQueue (v : list Direction) (s : State) : State :=
  mkState (gameState s) (speed s) (score s) (highScore s) (viewMode s) (snake s) (food s)
          (direction s) (directionRef s) v (storage s) (calls s).
Definition setStorage (v : option JsNumber) (s : State) : State :=
  mkState (gameState s) (speed s) (score s) (highScore s) (viewMode s) (snake s) (food s)
          (direction s) (directionRef s) (moveQueue s) v (calls s).
Definition setCalls (v : nat) (s : State) : State :=
  mkState (gameState s) (speed s) (score s) (highScore s) (viewMode s) (snake s) (food s)
          (direction s) (directionRef s) (moveQueue s) (storage s) v.

(** The values of the [useState] and [useRef] calls of [App], with the
    storage as the browser holds it when the page loads. *)
Definition initialState (saved : option JsNumber) : State :=
  {| gameState := MENU;
     speed := SPEEDS MEDIUM;
     score := 0;
     highScore := Num 0;
     viewMode := THIRD_PERSON;
     snake := [(0, 2); (0, 1); (0, 0)];
     food := (0, 5);
     direction := (0, 1);
     directionRef := (0, 1);
     moveQueue := [];
     storage := saved;
     calls := 0%nat |}.

(** ** Keys *)

Definition toLowerAscii (c : ascii) : ascii :=
  let n := nat_of_ascii c in
  if ((65 <=? n)%nat && (n <=? 90)%nat)%bool then ascii_of_nat (n + 32) else c.

(** [String.prototype.toLowerCase] on the ASCII key names the handler
    compares with. *)
Fixpoint toLowerCase (s : string) : string :=
  match s with
  | EmptyString => EmptyString
  | String c r => String (toLowerAscii c) (toLowerCase r)
  end.

(** The four [if (key === ...) newDir = ...] statements, in order. *)
Definition keyDirection (key : string) : option Direction :=
  let newDir : option Direction := None in
  let newDir := if ((key =? "w") || (key =? "arrowup"))%string then Some (0, -1) else newDir in
  let newDir := if ((key =? "s") || (key =? "arrowdown"))%string then Some (0, 1) else newDir in
  let newDir := if ((key =? "a") || (key =? "arrowleft"))%string then Some (-1, 0) else newDir in
  let newDir := if ((key =? "d") || (key =? "arrowright"))%string then Some (1, 0) else newDir in
  newDir.

Definition toggleView (v : ViewMode) : ViewMode :=
  match v with
  | THIRD_PERSON => FIRST_PERSON
  | FIRST_PERSON => THIRD_PERSON
  end.

(** [currentDir[0] !== -newDir[0] || currentDir[1] !== -newDir[1]] *)
Definition notReverse (currentDir newDir : Direction) : bool :=
  negb (fst currentDir =? - fst newDir) || negb (snd currentDir =? - snd newDir).

(** The listener installed by the input effect; [k] is [e.key]. *)
Definition handleKeyDown (k : string) (s : State) : State :=
  if negb (GameState_eqb (gameState s) PLAYING) then s
  else
    let key := toLowerCase k in
    let newDir := keyDirection key in
    if (key =? " ")%string then setViewMode (toggleView (viewMode s)) s
    else
      match newDir with
      | Some newDir =>
          let currentDir :=
            match moveQueue s with
            | [] => directionRef s
            | _ :: _ => last (moveQueue s) (directionRef s)
            end in
          if notReverse currentDir newDir
          then setMoveQueue (moveQueue s ++ [newDir]) s
          else s
      | None => s
      end.

(** ** The high-score effects *)

(** [if (saved) setHighScore(parseInt(saved, 10))] *)
Definition loadHighScore (s : State) : State :=
  match storage s with
  | Some v => setHighScore v s
  | None => s
  end.

(** The effect on [[score, highScore]]. *)
Definition updateHighScore (s : State) : State :=
  if JsNumber_gtb (Num (score s)) (highScore s)
  then setStorage (Some (Num (score s))) (setHighScore (Num (score s)) s)
  else s.

(** The page after mounting [App]: both effects have run. *)
Definition boot (saved : option JsNumber) : State :=
  updateHighScore (loadHighScore (initialState saved)).

(** ** Food placement, tick and start *)

Section Game.

Variable rnd : nat -> Z.

(** [snake.some(([sx, sz]) => sx === x && sz === z)] *)
Definition isOnSnake (snake : list Cell) (x z : Z) : bool :=
  existsb (fun c => (fst c =? x) && (snd c =? z)) snake.

(** The cell sampled by the loop body that starts at evaluation [n]. *)
Definition sample (n : nat) : Cell :=
  (rnd n - BOUNDARY, rnd (S n) - BOUNDARY).

Fixpoint getRandomPosition (fuel : nat) (n : nat) (snake : list Cell)
  : Res (Cell * nat) :=
  match fuel with
  | O => OutOfFuel
  | S fuel' =>
      let x := rnd n - BOUNDARY in
      let z := rnd (S n) - BOUNDARY in
      let position := (x, z) in
      if isOnSnake snake x z
      then getRandomPosition fuel' (S (S n)) snake
      else Ok (position, S (S n))
  end.

(** The wall test of the tick. *)
Definition hitsWall (newHead : Cell) : bool :=
  (fst newHead <? - BOUNDARY) || (fst newHead >? BOUNDARY) ||
  (snd newHead <? - BOUNDARY) || (snd newHead >? BOUNDARY).

(** The [for] loop of the tick: indices [0 .. prevSnake.length - 2]. *)
Definition hitsSelf (newHead : Cell) (prevSnake : list Cell) : bool :=
  existsb (cellEqb newHead) (firstn (List.length prevSnake - 1) prevSnake).

(** The first statement of [moveSnake]: take the next queued move. *)
Definition dequeue (s : State) : State :=
  match moveQueue s with
  | d :: rest => setDirection d (setDirectionRef d (setMoveQueue rest s))
  | [] => s
  end.

Definition addDir (head : Cell) (d : Direction) : Cell :=
  (fst head + fst d, snd head + snd d).

(** The updater passed to [setSnake], with [currentDir] and [food] as the
    closure holds them. *)
Definition advance (fuel : nat) (s : State) : Res State :=
  let currentDir := directionRef s in
  let prevSnake := snake s in
  match prevSnake with
  | [] => TypeError
  | head :: _ =>
      let newHead := addDir head currentDir in
      if hitsWall newHead then Ok (setGameState GAME_OVER s)
      else if hitsSelf newHead prevSnake then Ok (setGameState GAME_OVER s)
      else
        let newSnake := newHead :: prevSnake in
        if cellEqb newHead (food s) then
          r <- getRandomPosition fuel (calls s) newSnake ;;
          Ok (setSnake newSnake
                (setCalls (snd r) (setFood (fst r) (setScore (score s + 10) s))))
        else
          Ok (setSnake (removelast newSnake) s)
  end.

Definition moveSnake (fuel : nat) (s : State) : Res State :=
  advance fuel (dequeue s).

Definition initialSnake : list Cell := [(0, 0); (0, -1); (0, -2)].

Definition startGame (fuel : nat) (selectedSpeed : Z) (s : State) : Res State :=
  let s := setSpeed selectedSpeed s in
  let s := setSnake initialSnake s in
  let s := setDirection (0, 1) s in
  let s := setDirectionRef (0, 1) s in
  let s := setMoveQueue [] s in
  let s := setScore 0 s in
  r <- getRandomPosition fuel (calls s) [(0, 0); (0, -1); (0, -2)] ;;
  let s := setCalls (snd r) (setFood (fst r) s) in
  let s := setGameState PLAYING s in
  Ok (setViewMode THIRD_PERSON s).

(** ** Events *)

Inductive Event :=
| KeyDown (key : string)
| Tick
| ClickSpeed (n : SpeedName)
| ClickMainMenu.

(** What a browser event does to the page.  The interval runs only while
    PLAYING, the speed buttons exist only in MENU and the MAIN MENU button
    only in GAME_OVER. *)
Definition handle (fuel : nat) (e : Event) (s : State) : Res State :=
  match e with
  | KeyDown k => Ok (handleKeyDown k s)
  | Tick =>
      if GameState_eqb (gameState s) PLAYING then moveSnake fuel s else Ok s
  | ClickSpeed n =>
      if GameState_eqb (gameState s) MENU then startGame fuel (SPEEDS n) s else Ok s
  | ClickMainMenu =>
      if GameState_eqb (gameState s) GAME_OVER then Ok (setGameState MENU s) else Ok s
  end.

(** One event, then the effect on [[score, highScore]] of the render it
    causes. *)
Definition step (fuel : nat) (e : Event) (s : State) : Res State :=
  s' <- handle fuel e s ;; Ok (updateHighScore s').

Fixpoint run (fuel : nat) (evs : list Event) (s : State) : Res State :=
  match evs with
  | [] => Ok s
  | e :: evs' => s' <- step fuel e s ;; run fuel evs' s'
  end.

(** The directions in effect at the ticks executed along a run. *)
Fixpoint appliedDirections (fuel : nat) (evs : list Event) (s : State)
  : list Direction :=
  match evs with
  | [] => []
  | e :: evs' =>
      let here :=
        match e with
        | Tick => if GameState_eqb (gameState s) PLAYING
                  then [directionRef (dequeue s)] else []
        | _ => []
        end in
      here ++ match step fuel e s with
              | Ok s' => appliedDirections fuel evs' s'
              | _ => []
              end
  end.

(** [n] consecutive ticks, no other event. *)
Definition ticks (fuel : nat) (n : nat) (s : State) : Res State :=
  run fuel (repeat Tick n) s.

End Game.

(** ** Vocabulary of the properties *)

(** Both coordinates lie in [[-BOUNDARY, BOUNDARY]]. *)
Definition inGrid (c : Cell) : Prop :=
  - BOUNDARY <= fst c <= BOUNDARY /\ - BOUNDARY <= snd c <= BOUNDARY.

(** Every draw is a value [Math.floor(u * GRID_SIZE)] with [0 <= u < 1]. *)
Definition inRange (rnd : nat -> Z) : Prop :=
  forall n, 0 <= rnd n < GRID_SIZE.

(** From evaluation [n] on, some iteration of the placer's loop samples a
    cell that is not in [occupied]. *)
Definition eventuallyFree (rnd : nat -> Z) (n : nat) (occupied : list Cell) : Prop :=
  exists k : nat,
    isOnSnake occupied (fst (sample rnd (n + 2 * k))) (snd (sample rnd (n + 2 * k))) = false.

(** [a] is the component-wise negation of [b]. *)
Definition opposite (a b : Direction) : Prop :=
  fst a = - fst b /\ snd a = - snd b.

Definition isUnit (d : Direction) : Prop :=
  d = (0, -1) \/ d = (0, 1) \/ d = (-1, 0) \/ d = (1, 0).

(** No element is the opposite of the element before it. *)
Fixpoint steady (d : Direction) (q : list Direction) : Prop :=
  match q with
  | [] => True
  | e :: q' => ~ opposite e d /\ steady e q'
  end.

Definition noReversal (l : list Direction) : Prop :=
  forall (i : nat) (a b : Direction),
    nth_error l i = Some a -> nth_error l (S i) = Some b -> ~ opposite b a.

Definition isKeyOrTick (e : Event) : Prop :=
  match e with
  | KeyDown _ | Tick => True
  | _ => False
  end.

(** The new head of the tick run in state [s]: the head plus the direction
    in effect once the queue has been consulted. *)
Definition newHeadOf (s : State) : Cell :=
  addDir (hd (0, 0) (snake s)) (directionRef (dequeue s)).

(** Invariants of the reachable states. *)
Definition SnakeInv (s : State) : Prop :=
  snake s <> [] /\ NoDup (snake s) /\ ~ In (food s) (snake s).

Definition DirInv (s : State) : Prop :=
  isUnit (directionRef s) /\ Forall isUnit (moveQueue s) /\
  steady (directionRef s) (moveQueue s).

Definition ScoreInv (s : State) : Prop :=
  0 <= score s /\ (10 | score s) /\
  match highScore s with
  | Num h => score s <= h
  | NaN => True
  end.

(** ** Concrete inputs *)

(** An oracle whose draws are all [0]: every sample is the corner
    [(-BOUNDARY, -BOUNDARY)]. *)
Definition rndZero : nat -> Z := fun _ => 0.

(** An oracle whose first sample is the cell (0,0), on the initial snake,
    and whose later samples are the corner. *)
Definition rndRetry : nat -> Z := fun n => if (n <? 2)%nat then 10 else 0.

(** An oracle whose samples walk up the column of the initial heading:
    (0,3), (0,4), ..., (0,10), (0,3), ... *)
Definition rndAhead : nat -> Z :=
  fun n => if Nat.even n then 10 else Z.of_nat (13 + (n / 2) mod 8).

(** The scenario state: the [useState] values of [App], PLAYING. *)
Definition scenario : State := setGameState PLAYING (initialState None).

(** The head is on the east wall and heads east. *)
Definition atEastWall : State :=
  setSnake [(10, 0); (9, 0); (8, 0)]
    (setDirectionRef (1, 0) (setDirection (1, 0) scenario)).

(** A state no run reaches: the food lies on the tail tip of a snake that
    is about to step onto it. *)
Definition foodOnTail : State :=
  setSnake [(0, 0); (1, 0); (1, 1); (0, 1)]
    (setFood (0, 1) (setGameState PLAYING (initialState None))).

(** ** Vocabulary of the further properties *)

(** Two cells side by side on the grid. *)
Definition adjacent (a b : Cell) : Prop :=
  Z.abs (fst a - fst b) + Z.abs (snd a - snd b) = 1.

(** Every cell is side by side with the next one. *)
Fixpoint linked (l : list Cell) : Prop :=
  match l with
  | a :: r => match r with
              | b :: _ => adjacent a b /\ linked r
              | [] => True
              end
  | [] => True
  end.

(** The coordinates [-BOUNDARY .. BOUNDARY] and the cells of the grid. *)
Definition axis : list Z :=
  map (fun i => Z.of_nat i - BOUNDARY) (seq 0 (Z.to_nat GRID_SIZE)).

Definition gridCells : list Cell := list_prod axis axis.

(** The condition under which the game-over screen renders the line
    NEW HIGH SCORE!:
    [gameState === 'GAME_OVER' && (... score >= highScore && score > 0 ...)]. *)
Definition showsNewHighScore (s : State) : bool :=
  GameState_eqb (gameState s) GAME_OVER &&
  (JsNumber_geb (Num (score s)) (highScore s) && (score s >? 0)).

(** The stored value is the high score, unless nothing was ever stored. *)
Definition StorageInv (s : State) : Prop :=
  storage s = Some (highScore s) \/ (storage s = None /\ highScore s = Num 0).

(** A path through all the cells of the grid, row by row, alternating the
    sense, from (-10,-10) to (10,10). *)
Definition boustrophedon : list Cell :=
  flat_map
    (fun i =>
       map (fun j => (if Nat.even i then Z.of_nat j - 10 else 10 - Z.of_nat j,
                      Z.of_nat i - 10))
           (seq 0 21))
    (seq 0 21).

(** The snake lies on the whole path but its last cell, where the food is,
    one step ahead of the head. *)
Definition almostFull : State :=
  setSnake (rev (removelast boustrophedon))
    (setFood (10, 10) (setDirectionRef (1, 0) (setDirection (1, 0) scenario))).

(** From every even index on, the random source samples every cell of the
    grid again. *)
Definition recurrent (rnd : nat -> Z) : Prop :=
  forall (n : nat) (c : Cell),
    Nat.even n = true -> inGrid c ->
    exists k : nat, sample rnd (n + 2 * k) = c.

(** An oracle that sweeps the grid row by row, over and over. *)
Definition rndSweep : nat -> Z :=
  fun n => if Nat.even n
           then Z.of_nat (n / 2) mod 21
           else (Z.of_nat (n / 2) / 21) mod 21.

(** Boolean test of [NoDup] on cells. *)
Fixpoint nodupb (l : list Cell) : bool :=
  match l with
  | [] => true
  | c :: r => negb (existsb (cellEqb c) r) && nodupb r
  end.

(** ** Elementary facts *)

Lemma BOUNDARY_eq : BOUNDARY = 10.
Proof. reflexivity. Qed.

Lemma cellEqb_eq (a b : Cell) : cellEqb a b = true <-> a = b.
Proof.
  destruct a as [ax az], b as [bx bz]; unfold cellEqb; simpl.
  rewrite andb_true_iff, !Z.eqb_eq. split.
  - intros [-> ->]; reflexivity.
  - intros H; inversion H; auto.
Qed.

Lemma cellEqb_neq (a b : Cell) : cellEqb a b = false <-> a <> b.
Proof.
  rewrite <- cellEqb_eq. destruct (cellEqb a b); split; congruence.
Qed.

Lemma isOnSnake_In (l : list Cell) (x z : Z) :
  isOnSnake l x z = true <-> In (x, z) l.
Proof.
  unfold isOnSnake. rewrite existsb_exists. split.
  - intros [[cx cz] [Hin Heq]]. simpl in Heq.
    apply andb_true_iff in Heq. destruct Heq as [H1 H2].
    apply Z.eqb_eq in H1, H2. subst. exact Hin.
  - intros Hin. exists (x, z). split; [exact Hin|].
    simpl. now rewrite !Z.eqb_refl.
Qed.

Lemma isOnSnake_free (l : list Cell) (c : Cell) :
  isOnSnake l (fst c) (snd c) = false <-> ~ In c l.
Proof.
  pose proof (isOnSnake_In l (fst c) (snd c)) as H.
  rewrite <- surjective_pairing in H. rewrite <- H.
  destruct (isOnSnake l (fst c) (snd c)); split; congruence.
Qed.

Lemma In_removelast {A : Type} (x : A) (l : list A) :
  In x (removelast l) -> In x l.
Proof.
  induction l as [|a [|b l] IH]; simpl; intros H; auto.
  destruct H as [H|H]; [left; exact H | right; apply IH; exact H].
Qed.

Lemma NoDup_removelast {A : Type} (l : list A) :
  NoDup l -> NoDup (removelast l).
Proof.
  induction l as [|a [|b l] IH]; intros H; simpl; try constructor.
  - inversion H as [|? ? Hn Hd]; subst. intros Hin.
    apply Hn. apply (In_removelast a (b :: l)). exact Hin.
  - inversion H; subst. apply IH. assumption.
Qed.

Lemma length_removelast_cons {A : Type} (a : A) (l : list A) :
  List.length (removelast (a :: l)) = List.length l.
Proof.
  revert a; induction l as [|b l IH]; intros a; [reflexivity|].
  change (removelast (a :: b :: l)) with (a :: removelast (b :: l)).
  cbn [List.length]. f_equal. apply IH.
Qed.

(** The cells the self-collision loop visits are those at the indices
    below [length - 1], that is, all but the last one. *)
Lemma hitsSelf_removelast (c : Cell) (l : list Cell) :
  hitsSelf c l = true <-> In c (removelast l).
Proof.
  unfold hitsSelf. rewrite removelast_firstn_len, Nat.sub_1_r, existsb_exists.
  split.
  - intros [x [Hin Heq]]. apply cellEqb_eq in Heq. now subst.
  - intros Hin. exists c. split; [exact Hin | now apply cellEqb_eq].
Qed.

Lemma hitsSelf_index (c : Cell) (l : list Cell) :
  hitsSelf c l = true <->
  exists i : nat, (i < List.length l - 1)%nat /\ nth_error l i = Some c.
Proof.
  unfold hitsSelf. rewrite existsb_exists. split.
  - intros [x [Hin Heq]]. apply cellEqb_eq in Heq. subst x.
    apply In_nth_error in Hin. destruct Hin as [i Hi].
    assert (Hlt : (i < List.length (firstn (List.length l - 1) l))%nat)
      by (apply nth_error_Some; congruence).
    rewrite length_firstn in Hlt.
    exists i. split; [lia|].
    rewrite nth_error_firstn in Hi.
    destruct (Nat.ltb_spec i (List.length l - 1)); [exact Hi | lia].
  - intros [i [Hlt Hi]]. exists c. split; [|now apply cellEqb_eq].
    apply (nth_error_In _ i). rewrite nth_error_firstn.
    destruct (Nat.ltb_spec i (List.length l - 1)); [exact Hi | lia].
Qed.

Lemma hitsWall_inGrid (c : Cell) : hitsWall c = false <-> inGrid c.
Proof.
  unfold hitsWall, inGrid. rewrite !orb_false_iff.
  rewrite !Z.ltb_ge, !Z.gtb_ltb, !Z.ltb_ge. lia.
Qed.

(** ** The food placer *)

Section Placer.

Variable rnd : nat -> Z.

Lemma getRandomPosition_sound (fuel n : nat) (occupied : list Cell) (p : Cell) (c : nat) :
  getRandomPosition rnd fuel n occupied = Ok (p, c) ->
  ~ In p occupied /\ exists k : nat, p = sample rnd (n + 2 * k) /\ c = (n + 2 * k + 2)%nat.
Proof.
  revert n. induction fuel as [|fuel IH]; intros n H; [discriminate|].
  simpl in H.
  destruct (isOnSnake occupied (rnd n - BOUNDARY) (rnd (S n) - BOUNDARY)) eqn:E.
  - apply IH in H. destruct H as [Hfree [k [Hp Hc]]].
    split; [exact Hfree|]. exists (S k).
    replace (n + 2 * S k)%nat with (S (S n) + 2 * k)%nat by lia.
    split; [exact Hp | lia].
  - inversion H; subst. split.
    + apply isOnSnake_free. exact E.
    + exists 0%nat. rewrite Nat.mul_0_r, Nat.add_0_r. split; [reflexivity | lia].
Qed.

Lemma getRandomPosition_complete (k n : nat) (occupied : list Cell) :
  isOnSnake occupied (fst (sample rnd (n + 2 * k))) (snd (sample rnd (n + 2 * k))) = false ->
  exists r, getRandomPosition rnd (S k) n occupied = Ok r.
Proof.
  revert n. induction k as [|k IH]; intros n H.
  - rewrite Nat.mul_0_r, Nat.add_0_r in H. simpl in H.
    simpl. rewrite H. eauto.
  - change (getRandomPosition rnd (S (S k)) n occupied) with
      (if isOnSnake occupied (rnd n - BOUNDARY) (rnd (S n) - BOUNDARY)
       then getRandomPosition rnd (S k) (S (S n)) occupied
       else Ok ((rnd n - BOUNDARY, rnd (S n) - BOUNDARY), S (S n))).
    destruct (isOnSnake occupied (rnd n - BOUNDARY) (rnd (S n) - BOUNDARY)).
    + apply IH. replace (S (S n) + 2 * k)%nat with (n + 2 * S k)%nat by lia.
      exact H.
    + eauto.
Qed.

(** The result does not depend on the fuel, once there is enough of it. *)
Lemma getRandomPosition_fuel (fuel fuel' n : nat) (occupied : list Cell) (r r' : Cell * nat) :
  getRandomPosition rnd fuel n occupied = Ok r ->
  getRandomPosition rnd fuel' n occupied = Ok r' ->
  r = r'.
Proof.
  revert fuel' n. induction fuel as [|fuel IH]; intros fuel' n H H'; [discriminate|].
  destruct fuel' as [|fuel']; [discriminate|].
  simpl in H, H'.
  destruct (isOnSnake occupied (rnd n - BOUNDARY) (rnd (S n) - BOUNDARY)).
  - eapply IH; eassumption.
  - congruence.
Qed.

Lemma sample_inGrid (n : nat) : inRange rnd -> inGrid (sample rnd n).
Proof.
  intros Hr. unfold inGrid, sample; simpl.
  pose proof (Hr n) as H1. pose proof (Hr (S n)) as H2.
  rewrite BOUNDARY_eq. unfold GRID_SIZE in *. lia.
Qed.

(** When every cell of the grid is occupied the loop never exits. *)
Lemma getRandomPosition_full_grid (fuel n : nat) (occupied : list Cell) :
  inRange rnd ->
  (forall c, inGrid c -> In c occupied) ->
  getRandomPosition rnd fuel n occupied = OutOfFuel.
Proof.
  intros Hr Hfull. revert n. induction fuel as [|fuel IH]; intros n; [reflexivity|].
  simpl.
  assert (E : isOnSnake occupied (rnd n - BOUNDARY) (rnd (S n) - BOUNDARY) = true).
  { apply isOnSnake_In. apply Hfull. apply (sample_inGrid n Hr). }
  rewrite E. apply IH.
Qed.

(** C6. Given a list [occupied] of cells, if the random source ever samples
    a cell outside [occupied] (which needs a free cell to exist, and has
    probability one for a uniform source when one exists), the food placer
    returns a cell, the same for every sufficient fuel, whose coordinates
    both lie in [[-BOUNDARY, BOUNDARY]] and which is not in [occupied]. *)
Theorem getRandomPosition_free_cell (n : nat) (occupied : list Cell) :
  inRange rnd ->
  eventuallyFree rnd n occupied ->
  exists (fuel : nat) (p : Cell) (c : nat),
    getRandomPosition rnd fuel n occupied = Ok (p, c) /\
    (forall fuel' r, getRandomPosition rnd fuel' n occupied = Ok r -> r = (p, c)) /\
    inGrid p /\ ~ In p occupied.
Proof.
  intros Hr [k Hk].
  destruct (getRandomPosition_complete k n occupied Hk) as [[p c] Hok].
  exists (S k), p, c.
  destruct (getRandomPosition_sound _ _ _ _ _ Hok) as [Hfree [j [Hp _]]].
  split; [exact Hok|]. split; [|split].
  - intros fuel' r Hr'. symmetry. eapply getRandomPosition_fuel; eassumption.
  - subst p. apply sample_inGrid, Hr.
  - exact Hfree.
Qed.

End Placer.

(** The premise on the random source can be met exactly when some cell of
    the grid is free. *)
Lemma free_cell_can_be_sampled (occupied : list Cell) (c : Cell) :
  inGrid c -> ~ In c occupied ->
  exists rnd : nat -> Z, inRange rnd /\ eventuallyFree rnd 0 occupied.
Proof.
  intros [Hx Hz] Hfree. rewrite BOUNDARY_eq in Hx, Hz.
  exists (fun n => if Nat.even n then fst c + BOUNDARY else snd c + BOUNDARY).
  split.
  - intros n. rewrite BOUNDARY_eq. unfold GRID_SIZE.
    destruct (Nat.even n); lia.
  - exists 0%nat. apply isOnSnake_free. unfold sample. simpl.
    replace (fst c + BOUNDARY - BOUNDARY, snd c + BOUNDARY - BOUNDARY) with c;
      [exact Hfree|].
    destruct c as [x z]; simpl; f_equal; lia.
Qed.

Lemma sampled_cell_is_free (rnd : nat -> Z) (n : nat) (occupied : list Cell) :
  inRange rnd -> eventuallyFree rnd n occupied ->
  exists c : Cell, inGrid c /\ ~ In c occupied.
Proof.
  intros Hr [k Hk]. exists (sample rnd (n + 2 * k)). split.
  - now apply sample_inGrid.
  - apply isOnSnake_free. exact Hk.
Qed.

(** ** The key handler *)

Lemma GameState_eqb_eq (a b : GameState) : GameState_eqb a b = true <-> a = b.
Proof. destruct a, b; simpl; split; congruence. Qed.

Lemma GameState_eqb_neq (a b : GameState) : GameState_eqb a b = false <-> a <> b.
Proof. destruct a, b; simpl; split; congruence. Qed.

(** C10. A key event received while the game state is not PLAYING changes
    nothing: the whole state, and so the move queue, the direction in
    effect and the view mode, is as before. *)
Theorem handleKeyDown_not_playing (k : string) (s : State) :
  gameState s <> PLAYING ->
  handleKeyDown k s = s /\
  moveQueue (handleKeyDown k s) = moveQueue s /\
  directionRef (handleKeyDown k s) = directionRef s /\
  direction (handleKeyDown k s) = direction s /\
  viewMode (handleKeyDown k s) = viewMode s.
Proof.
  intros H. apply GameState_eqb_neq in H.
  assert (E : handleKeyDown k s = s) by (unfold handleKeyDown; now rewrite H).
  rewrite E. repeat split.
Qed.

(** What the handler can do to the state: nothing, toggle the view, or
    append one direction that does not reverse the reference direction. *)
Lemma handleKeyDown_cases (k : string) (s : State) :
  handleKeyDown k s = s \/
  handleKeyDown k s = setViewMode (toggleView (viewMode s)) s \/
  exists d : Direction,
    isUnit d /\
    notReverse (last (moveQueue s) (directionRef s)) d = true /\
    handleKeyDown k s = setMoveQueue (moveQueue s ++ [d]) s.
Proof.
  unfold handleKeyDown.
  destruct (negb (GameState_eqb (gameState s) PLAYING)); [now left|].
  destruct (toLowerCase k =? " ")%string; [right; now left|].
  destruct (keyDirection (toLowerCase k)) as [d|] eqn:Ed; [|now left].
  assert (Hu : isUnit d).
  { unfold keyDirection in Ed. unfold isUnit.
    repeat match type of Ed with
           | context [if ?b then _ else _] => destruct b
           end; inversion Ed; auto. }
  assert (El : match moveQueue s with
               | [] => directionRef s
               | _ :: _ => last (moveQueue s) (directionRef s)
               end = last (moveQueue s) (directionRef s))
    by (destruct (moveQueue s); reflexivity).
  rewrite El.
  destruct (notReverse (last (moveQueue s) (directionRef s)) d) eqn:En.
  - right; right. exists d. auto.
  - now left.
Qed.

Lemma handleKeyDown_frame (k : string) (s : State) :
  gameState (handleKeyDown k s) = gameState s /\
  snake (handleKeyDown k s) = snake s /\
  food (handleKeyDown k s) = food s /\
  score (handleKeyDown k s) = score s /\
  highScore (handleKeyDown k s) = highScore s /\
  directionRef (handleKeyDown k s) = directionRef s.
Proof.
  destruct (handleKeyDown_cases k s) as [E|[E|[d [_ [_ E]]]]]; rewrite E;
    repeat split.
Qed.

Lemma updateHighScore_frame (s : State) :
  gameState (updateHighScore s) = gameState s /\
  snake (updateHighScore s) = snake s /\
  food (updateHighScore s) = food s /\
  score (updateHighScore s) = score s /\
  directionRef (updateHighScore s) = directionRef s /\
  moveQueue (updateHighScore s) = moveQueue s.
Proof.
  unfold updateHighScore.
  destruct (JsNumber_gtb (Num (score s)) (highScore s)); repeat split.
Qed.

(** ** The tick *)

Section Tick.

Variable rnd : nat -> Z.

Lemma dequeue_frame (s : State) :
  gameState (dequeue s) = gameState s /\
  snake (dequeue s) = snake s /\
  food (dequeue s) = food s /\
  score (dequeue s) = score s /\
  highScore (dequeue s) = highScore s /\
  calls (dequeue s) = calls s.
Proof.
  unfold dequeue. destruct (moveQueue s); repeat split.
Qed.

(** The three ways the updater of the tick can return. *)
Lemma advance_cases (fuel : nat) (s s' : State) :
  advance rnd fuel s = Ok s' ->
  exists (head : Cell) (rest : list Cell),
    snake s = head :: rest /\
    ((hitsWall (addDir head (directionRef s)) = true \/
      hitsSelf (addDir head (directionRef s)) (snake s) = true) /\
     s' = setGameState GAME_OVER s
     \/
     hitsWall (addDir head (directionRef s)) = false /\
     hitsSelf (addDir head (directionRef s)) (snake s) = false /\
     cellEqb (addDir head (directionRef s)) (food s) = true /\
     (exists (p : Cell) (c : nat),
        getRandomPosition rnd fuel (calls s) (addDir head (directionRef s) :: snake s)
          = Ok (p, c) /\
        s' = setSnake (addDir head (directionRef s) :: snake s)
               (setCalls c (setFood p (setScore (score s + 10) s))))
     \/
     hitsWall (addDir head (directionRef s)) = false /\
     hitsSelf (addDir head (directionRef s)) (snake s) = false /\
     cellEqb (addDir head (directionRef s)) (food s) = false /\
     s' = setSnake (removelast (addDir head (directionRef s) :: snake s)) s).
Proof.
  unfold advance. destruct (snake s) as [|head rest] eqn:Es; [discriminate|].
  intros H. exists head, rest. split; [reflexivity|].
  destruct (hitsWall (addDir head (directionRef s))) eqn:Ew.
  { left. inversion H. auto. }
  destruct (hitsSelf (addDir head (directionRef s)) (head :: rest)) eqn:Eh.
  { left. inversion H. auto. }
  destruct (cellEqb (addDir head (directionRef s)) (food s)) eqn:Ef.
  - right; left. repeat (split; [reflexivity|]).
    destruct (getRandomPosition rnd fuel (calls s)
                (addDir head (directionRef s) :: head :: rest)) as [[p c]| |] eqn:Eg;
      simpl in H; try discriminate.
    exists p, c. split; [reflexivity|]. now inversion H.
  - right; right. repeat (split; [reflexivity|]). now inversion H.
Qed.

(** C4. In a tick whose new head (the head plus the direction in effect)
    has a coordinate outside [[-BOUNDARY, BOUNDARY]], or equals the snake
    cell at some index other than the last one, the game state becomes
    GAME_OVER and the snake, the food and the score stay as they were. *)
Theorem collision_ends_game (fuel : nat) (s : State) :
  snake s <> [] ->
  (~ inGrid (newHeadOf s) \/
   exists i : nat,
     (i < List.length (snake s) - 1)%nat /\ nth_error (snake s) i = Some (newHeadOf s)) ->
  exists s' : State,
    moveSnake rnd fuel s = Ok s' /\
    gameState s' = GAME_OVER /\
    snake s' = snake s /\ food s' = food s /\ score s' = score s.
Proof.
  intros Hne Hhit. unfold moveSnake, advance, newHeadOf in *.
  destruct (dequeue_frame s) as [_ [Hs [Hf [Hsc _]]]].
  rewrite Hs. destruct (snake s) as [|head rest] eqn:Es; [congruence|].
  simpl hd in Hhit.
  destruct (hitsWall (addDir head (directionRef (dequeue s)))) eqn:Ew.
  { eexists. split; [reflexivity|]. simpl. rewrite Hs, Hf, Hsc. auto. }
  destruct Hhit as [Hout | Hidx].
  { apply hitsWall_inGrid in Ew. contradiction. }
  apply hitsSelf_index in Hidx. rewrite Hidx.
  eexists. split; [reflexivity|]. simpl. rewrite Hs, Hf, Hsc. auto.
Qed.

(** C7. Whatever the state before, once the random source samples a cell
    off the initial snake, [startGame] returns, for every sufficient fuel,
    the same state: the snake is the three cells (0,0), (0,-1), (0,-2),
    the direction in effect is (0,1), the move queue is empty, the score is
    0, the food is not on the snake, the game state is PLAYING and the tick
    period is the selected speed. *)
Theorem startGame_resets (selectedSpeed : Z) (s : State) :
  eventuallyFree rnd (calls s) initialSnake ->
  exists (fuel : nat) (s' : State),
    startGame rnd fuel selectedSpeed s = Ok s' /\
    (forall fuel2 s2, startGame rnd fuel2 selectedSpeed s = Ok s2 -> s2 = s') /\
    snake s' = [(0, 0); (0, -1); (0, -2)] /\
    direction s' = (0, 1) /\ directionRef s' = (0, 1) /\
    moveQueue s' = [] /\
    score s' = 0 /\
    ~ In (food s') (snake s') /\
    gameState s' = PLAYING /\
    speed s' = selectedSpeed.
Proof.
  intros [k Hk].
  destruct (getRandomPosition_complete rnd k _ _ Hk) as [[p c] Hok].
  destruct (getRandomPosition_sound rnd _ _ _ _ _ Hok) as [Hfree _].
  unfold startGame. simpl calls.
  exists (S k). unfold initialSnake in *. rewrite Hok. simpl bind.
  eexists. split; [reflexivity|]. split.
  - intros fuel2 s2 H2.
    destruct (getRandomPosition rnd fuel2 (calls s) [(0, 0); (0, -1); (0, -2)])
      as [r| |] eqn:E2; simpl in H2; try discriminate.
    rewrite (getRandomPosition_fuel rnd _ _ _ _ _ _ E2 Hok) in H2.
    now inversion H2.
  - simpl. repeat split. exact Hfree.
Qed.

End Tick.

(** ** Invariants of the runs *)

Section Invariants.

Variable rnd : nat -> Z.

Lemma step_cases (fuel : nat) (e : Event) (s s' : State) :
  step rnd fuel e s = Ok s' ->
  exists s1 : State, handle rnd fuel e s = Ok s1 /\ s' = updateHighScore s1.
Proof.
  unfold step. destruct (handle rnd fuel e s) as [s1| |]; simpl; try discriminate.
  intros H. exists s1. split; [reflexivity | now inversion H].
Qed.

(** A property kept by every step is kept by every run. *)
Lemma run_invariant (P : State -> Prop) (fuel : nat) :
  (forall e s s', P s -> step rnd fuel e s = Ok s' -> P s') ->
  forall evs s s', P s -> run rnd fuel evs s = Ok s' -> P s'.
Proof.
  intros Hstep. induction evs as [|e evs IH]; intros s s' HP H; simpl in H.
  - now inversion H; subst.
  - destruct (step rnd fuel e s) as [s1| |] eqn:E; simpl in H; try discriminate.
    eapply IH; [|exact H]. eapply Hstep; eassumption.
Qed.

Lemma run_app (fuel : nat) (evs1 evs2 : list Event) (s s1 s2 : State) :
  run rnd fuel evs1 s = Ok s1 ->
  run rnd fuel evs2 s1 = Ok s2 ->
  run rnd fuel (evs1 ++ evs2) s = Ok s2.
Proof.
  revert s. induction evs1 as [|e evs1 IH]; intros s H1 H2; simpl in *.
  - now inversion H1; subst.
  - destruct (step rnd fuel e s) as [s'| |]; simpl in *; try discriminate.
    now apply IH.
Qed.

(** *** The snake has no repeated cell and the food is off the snake *)

Lemma SnakeInv_frame (s s' : State) :
  snake s' = snake s -> food s' = food s -> SnakeInv s -> SnakeInv s'.
Proof. unfold SnakeInv. intros -> ->. auto. Qed.

Lemma advance_SnakeInv (fuel : nat) (s s' : State) :
  SnakeInv s -> advance rnd fuel s = Ok s' -> SnakeInv s'.
Proof.
  intros [Hne [Hnd Hfood]] H.
  destruct (advance_cases rnd fuel s s' H) as [head [rest [Es Hc]]].
  destruct Hc as [[_ ->] | [[_ [_ [Heat [p [c [Hg ->]]]]]] | [_ [Hself [Hno ->]]]]].
  - unfold SnakeInv. simpl. auto.
  - apply cellEqb_eq in Heat.
    apply getRandomPosition_sound in Hg. destruct Hg as [Hfree _].
    unfold SnakeInv. simpl. split; [discriminate|]. split; [|exact Hfree].
    constructor; [|exact Hnd]. rewrite Heat. exact Hfood.
  - apply cellEqb_neq in Hno.
    assert (Hself' : ~ In (addDir head (directionRef s)) (removelast (snake s))).
    { intros Hin. apply hitsSelf_removelast in Hin. congruence. }
    unfold SnakeInv. simpl snake. simpl food.
    rewrite Es in *.
    change (removelast (addDir head (directionRef s) :: head :: rest))
      with (addDir head (directionRef s) :: removelast (head :: rest)).
    split; [discriminate|]. split.
    + constructor; [exact Hself' | now apply NoDup_removelast].
    + intros [Heq | Hin]; [congruence|].
      apply Hfood. now apply In_removelast.
Qed.

Lemma moveSnake_SnakeInv (fuel : nat) (s s' : State) :
  SnakeInv s -> moveSnake rnd fuel s = Ok s' -> SnakeInv s'.
Proof.
  intros Hinv. apply advance_SnakeInv.
  destruct (dequeue_frame s) as [_ [Hs [Hf _]]].
  now apply (SnakeInv_frame s).
Qed.

Lemma startGame_SnakeInv (fuel : nat) (sp : Z) (s s' : State) :
  startGame rnd fuel sp s = Ok s' -> SnakeInv s'.
Proof.
  unfold startGame. simpl calls.
  destruct (getRandomPosition rnd fuel (calls s) [(0, 0); (0, -1); (0, -2)])
    as [[p c]| |] eqn:E; simpl; try discriminate.
  intros H; inversion H; subst; clear H.
  apply getRandomPosition_sound in E. destruct E as [Hfree _].
  unfold SnakeInv. simpl. split; [discriminate|]. split; [|exact Hfree].
  repeat constructor; simpl; intuition discriminate.
Qed.

Lemma handle_SnakeInv (fuel : nat) (e : Event) (s s' : State) :
  SnakeInv s -> handle rnd fuel e s = Ok s' -> SnakeInv s'.
Proof.
  intros Hinv. destruct e as [k| |n|]; simpl.
  - intros H; inversion H; subst.
    destruct (handleKeyDown_frame k s) as [_ [Hs [Hf _]]].
    now apply (SnakeInv_frame s).
  - destruct (GameState_eqb (gameState s) PLAYING).
    + now apply moveSnake_SnakeInv.
    + intros H; now inversion H; subst.
  - destruct (GameState_eqb (gameState s) MENU).
    + apply startGame_SnakeInv.
    + intros H; now inversion H; subst.
  - destruct (GameState_eqb (gameState s) GAME_OVER);
      intros H; inversion H; subst; exact Hinv.
Qed.

Lemma step_SnakeInv (fuel : nat) (e : Event) (s s' : State) :
  SnakeInv s -> step rnd fuel e s = Ok s' -> SnakeInv s'.
Proof.
  intros Hinv H. apply step_cases in H. destruct H as [s1 [H ->]].
  destruct (updateHighScore_frame s1) as [_ [Hs [Hf _]]].
  apply (SnakeInv_frame s1); auto. eapply handle_SnakeInv; eassumption.
Qed.

Lemma boot_SnakeInv (saved : option JsNumber) : SnakeInv (boot saved).
Proof.
  assert (H0 : SnakeInv (initialState saved)).
  { unfold SnakeInv. simpl. split; [discriminate|]. split.
    - repeat constructor; simpl; intuition discriminate.
    - intuition discriminate. }
  unfold boot.
  destruct (updateHighScore_frame (loadHighScore (initialState saved)))
    as [_ [Hs [Hf _]]].
  apply (SnakeInv_frame (loadHighScore (initialState saved))); auto.
  apply (SnakeInv_frame (initialState saved)); auto;
    unfold loadHighScore; destruct (storage (initialState saved)); reflexivity.
Qed.

Lemma reachable_SnakeInv (saved : option JsNumber) (fuel : nat) (evs : list Event) (s : State) :
  run rnd fuel evs (boot saved) = Ok s -> SnakeInv s.
Proof.
  apply (run_invariant SnakeInv fuel (step_SnakeInv fuel)). apply boot_SnakeInv.
Qed.

(** C1. In every state a run reaches while PLAYING the snake has no two
    equal cells, and the snake returned by a tick executed in such a state
    has none either: a growth tick keeps the tail, but its new head is the
    food cell, which is on no snake cell. *)
Theorem snake_never_overlaps
  (saved : option JsNumber) (fuel : nat) (evs : list Event) (s : State) :
  run rnd fuel evs (boot saved) = Ok s ->
  gameState s = PLAYING ->
  NoDup (snake s) /\
  forall (fuel' : nat) (s' : State),
    moveSnake rnd fuel' s = Ok s' -> NoDup (snake s').
Proof.
  intros Hrun _. pose proof (reachable_SnakeInv _ _ _ _ Hrun) as Hinv.
  split; [apply Hinv|].
  intros fuel' s' Ht. now apply (moveSnake_SnakeInv fuel' s s' Hinv Ht).
Qed.

(** C9. In every state a run reaches while PLAYING the food cell is not a
    cell of the snake. *)
Theorem food_never_on_snake
  (saved : option JsNumber) (fuel : nat) (evs : list Event) (s : State) :
  run rnd fuel evs (boot saved) = Ok s ->
  gameState s = PLAYING ->
  ~ In (food s) (snake s).
Proof.
  intros Hrun _. apply (reachable_SnakeInv _ _ _ _ Hrun).
Qed.

End Invariants.

(** ** The length of the snake *)

Section Growth.

Variable rnd : nat -> Z.
Hypothesis rnd_range : inRange rnd.

Lemma advance_food_inGrid (fuel : nat) (s s' : State) :
  inGrid (food s) -> advance rnd fuel s = Ok s' -> inGrid (food s').
Proof.
  intros Hin H.
  destruct (advance_cases rnd fuel s s' H) as [head [rest [Es Hc]]].
  destruct Hc as [[_ ->] | [[_ [_ [_ [p [c [Hg ->]]]]]] | [_ [_ [_ ->]]]]];
    simpl; auto.
  apply getRandomPosition_sound in Hg. destruct Hg as [_ [k [-> _]]].
  now apply sample_inGrid.
Qed.

Lemma step_food_inGrid (fuel : nat) (e : Event) (s s' : State) :
  inGrid (food s) -> step rnd fuel e s = Ok s' -> inGrid (food s').
Proof.
  intros Hin H. apply step_cases in H. destruct H as [s1 [H ->]].
  destruct (updateHighScore_frame s1) as [_ [_ [Hf _]]]. rewrite Hf. clear Hf.
  destruct e as [k| |n|]; simpl in H.
  - inversion H; subst.
    destruct (handleKeyDown_frame k s) as [_ [_ [Hf _]]]. now rewrite Hf.
  - destruct (GameState_eqb (gameState s) PLAYING).
    + unfold moveSnake in H. eapply advance_food_inGrid; [|exact H].
      destruct (dequeue_frame s) as [_ [_ [Hf _]]]. now rewrite Hf.
    + now inversion H; subst.
  - destruct (GameState_eqb (gameState s) MENU).
    + unfold startGame in H. simpl calls in H.
      destruct (getRandomPosition rnd fuel (calls s) [(0, 0); (0, -1); (0, -2)])
        as [[p c]| |] eqn:E; simpl in H; try discriminate.
      inversion H; subst; simpl.
      apply getRandomPosition_sound in E. destruct E as [_ [k [-> _]]].
      now apply sample_inGrid.
    + now inversion H; subst.
  - destruct (GameState_eqb (gameState s) GAME_OVER); now inversion H; subst.
Qed.

Lemma reachable_food_inGrid
  (saved : option JsNumber) (fuel : nat) (evs : list Event) (s : State) :
  run rnd fuel evs (boot saved) = Ok s -> inGrid (food s).
Proof.
  apply (run_invariant rnd (fun s => inGrid (food s)) fuel (step_food_inGrid fuel)).
  unfold boot.
  destruct (updateHighScore_frame (loadHighScore (initialState saved)))
    as [_ [_ [Hf _]]].
  rewrite Hf. unfold loadHighScore.
  destruct (storage (initialState saved)); simpl; unfold inGrid; simpl;
    rewrite BOUNDARY_eq; lia.
Qed.

(** The tick returns unless the food placer it calls does not. *)
Lemma moveSnake_returns (s : State) :
  snake s <> [] ->
  (cellEqb (newHeadOf s) (food s) = true ->
   eventuallyFree rnd (calls s) (newHeadOf s :: snake s)) ->
  exists (fuel : nat) (s' : State), moveSnake rnd fuel s = Ok s'.
Proof.
  intros Hne Hfree. unfold moveSnake, advance, newHeadOf in *.
  destruct (dequeue_frame s) as [_ [Hs [Hf [_ [_ Hc]]]]].
  rewrite Hs, Hf, Hc. destruct (snake s) as [|head rest]; [congruence|].
  simpl hd in Hfree.
  destruct (hitsWall (addDir head (directionRef (dequeue s)))); [exists 0%nat; eauto|].
  destruct (hitsSelf (addDir head (directionRef (dequeue s))) (head :: rest));
    [exists 0%nat; eauto|].
  destruct (cellEqb (addDir head (directionRef (dequeue s))) (food s));
    [|exists 0%nat; eauto].
  destruct (Hfree eq_refl) as [k Hk].
  destruct (getRandomPosition_complete rnd k _ _ Hk) as [r Hr].
  exists (S k). rewrite Hr. simpl. eauto.
Qed.

(** The length after a tick, in a state where the food is in the grid and
    off the snake. *)
Lemma moveSnake_length (fuel : nat) (s s' : State) :
  SnakeInv s -> inGrid (food s) ->
  moveSnake rnd fuel s = Ok s' ->
  List.length (snake s') =
  (List.length (snake s) + if cellEqb (newHeadOf s) (food s) then 1 else 0)%nat.
Proof.
  intros [Hne [Hnd Hfood]] Hgrid H. unfold moveSnake in H.
  destruct (advance_cases rnd fuel _ _ H) as [head [rest [Es Hc]]].
  destruct (dequeue_frame s) as [_ [Hs [Hf _]]].
  unfold newHeadOf. rewrite Hs in Es. rewrite Es. simpl hd.
  rewrite Hs, Hf, Es in Hc.
  destruct Hc as [[Hhit ->] | [[_ [_ [Heat [p [c [_ ->]]]]]] | [_ [_ [Hno ->]]]]].
  - simpl snake. rewrite Hs, Es.
    destruct (cellEqb (addDir head (directionRef (dequeue s))) (food s)) eqn:Ef;
      [|lia].
    exfalso. apply cellEqb_eq in Ef. rewrite Ef in Hhit.
    destruct Hhit as [Hw | Hself].
    + apply hitsWall_inGrid in Hgrid. congruence.
    + apply hitsSelf_removelast in Hself. apply In_removelast in Hself.
      apply Hfood. now rewrite Es.
  - rewrite Heat. simpl. lia.
  - rewrite Hno. unfold setSnake. cbn [snake].
    rewrite length_removelast_cons. lia.
Qed.

(** C3. A tick executed in a state that a run has reached while PLAYING
    returns a snake whose length is the length before plus 1 when the new
    head equals the food cell, and the length before otherwise; the tick
    does return, provided the random source samples a free cell when food
    has to be placed. *)
Theorem tick_length
  (saved : option JsNumber) (fuel : nat) (evs : list Event) (s : State) :
  run rnd fuel evs (boot saved) = Ok s ->
  gameState s = PLAYING ->
  (forall (fuel' : nat) (s' : State),
     moveSnake rnd fuel' s = Ok s' ->
     List.length (snake s') =
     (List.length (snake s) + if cellEqb (newHeadOf s) (food s) then 1 else 0)%nat)
  /\
  ((cellEqb (newHeadOf s) (food s) = true ->
    eventuallyFree rnd (calls s) (newHeadOf s :: snake s)) ->
   exists (fuel' : nat) (s' : State), moveSnake rnd fuel' s = Ok s').
Proof.
  intros Hrun _.
  pose proof (reachable_SnakeInv rnd _ _ _ _ Hrun) as Hinv.
  pose proof (reachable_food_inGrid _ _ _ _ Hrun) as Hgrid.
  split.
  - intros fuel' s' Ht. now apply (moveSnake_length fuel').
  - apply moveSnake_returns. apply Hinv.
Qed.

End Growth.

(** ** Directions *)

Section Directions.

Variable rnd : nat -> Z.

Lemma notReverse_opposite (a b : Direction) :
  notReverse a b = true <-> ~ opposite b a.
Proof.
  unfold notReverse, opposite.
  rewrite orb_true_iff, !negb_true_iff, !Z.eqb_neq. lia.
Qed.

Lemma isUnit_not_self_opposite (d : Direction) : isUnit d -> ~ opposite d d.
Proof.
  unfold isUnit, opposite. intros [ -> | [ -> | [ -> | -> ] ] ]; simpl; lia.
Qed.

Lemma last_nonempty_default {A : Type} (x d d' : A) (q : list A) :
  last (x :: q) d = last (x :: q) d'.
Proof.
  revert x. induction q as [|y q IH]; intros x; [reflexivity|].
  change (last (y :: q) d = last (y :: q) d'). apply IH.
Qed.

Lemma steady_snoc (d e : Direction) (q : list Direction) :
  steady d q -> ~ opposite e (last q d) -> steady d (q ++ [e]).
Proof.
  revert d. induction q as [|a q IH]; intros d Hs Hn; simpl in *.
  - auto.
  - destruct Hs as [Ha Hq]. split; [exact Ha|].
    apply IH; [exact Hq|]. destruct q as [|x q]; [exact Hn|].
    now rewrite (last_nonempty_default x a d).
Qed.

Lemma steady_noReversal (d : Direction) (l : list Direction) :
  steady d l -> noReversal (d :: l).
Proof.
  revert d. induction l as [|e l IH]; intros d Hs i a b Ha Hb.
  - destruct i as [|[|i]]; discriminate.
  - destruct Hs as [Hn Hs]. destruct i as [|i].
    + simpl in Ha, Hb. inversion Ha; inversion Hb; subst. exact Hn.
    + simpl in Ha. change (nth_error (e :: l) (S i) = Some b) in Hb.
      exact (IH e Hs i a b Ha Hb).
Qed.

Lemma handleKeyDown_DirInv (k : string) (s : State) :
  DirInv s -> DirInv (handleKeyDown k s).
Proof.
  intros [Hu [Hq Hs]].
  destruct (handleKeyDown_cases k s) as [E|[E|[d [Hd [Hn E]]]]]; rewrite E.
  - unfold DirInv; auto.
  - unfold DirInv; simpl; auto.
  - unfold DirInv; simpl. split; [exact Hu|]. split.
    + apply Forall_app. split; [exact Hq | constructor; auto].
    + apply steady_snoc; [exact Hs|]. now apply notReverse_opposite.
Qed.

Lemma dequeue_DirInv (s : State) : DirInv s -> DirInv (dequeue s).
Proof.
  intros [Hu [Hq Hs]]. unfold dequeue.
  destruct (moveQueue s) as [|d rest] eqn:E.
  - unfold DirInv. rewrite E. auto.
  - unfold DirInv. simpl. inversion Hq; subst. destruct Hs as [_ Hs]. auto.
Qed.

(** The direction a tick applies does not reverse the reference direction
    it finds. *)
Lemma dequeue_no_reverse (s : State) :
  DirInv s -> ~ opposite (directionRef (dequeue s)) (directionRef s).
Proof.
  intros [Hu [Hq Hs]]. unfold dequeue.
  destruct (moveQueue s) as [|d rest].
  - now apply isUnit_not_self_opposite.
  - simpl. apply Hs.
Qed.

Lemma advance_directions (fuel : nat) (s s' : State) :
  advance rnd fuel s = Ok s' ->
  directionRef s' = directionRef s /\ moveQueue s' = moveQueue s.
Proof.
  intros H. destruct (advance_cases rnd fuel s s' H) as [head [rest [_ Hc]]].
  destruct Hc as [[_ ->] | [[_ [_ [_ [p [c [_ ->]]]]]] | [_ [_ [_ ->]]]]];
    split; reflexivity.
Qed.

Lemma DirInv_frame (s s' : State) :
  directionRef s' = directionRef s -> moveQueue s' = moveQueue s ->
  DirInv s -> DirInv s'.
Proof. unfold DirInv. intros -> ->. auto. Qed.

Lemma startGame_DirInv (fuel : nat) (sp : Z) (s s' : State) :
  startGame rnd fuel sp s = Ok s' -> DirInv s'.
Proof.
  unfold startGame. simpl calls.
  destruct (getRandomPosition rnd fuel (calls s) [(0, 0); (0, -1); (0, -2)])
    as [r| |]; simpl; try discriminate.
  intros H; inversion H; subst. unfold DirInv, isUnit; simpl. auto.
Qed.

Lemma step_DirInv (fuel : nat) (e : Event) (s s' : State) :
  DirInv s -> step rnd fuel e s = Ok s' -> DirInv s'.
Proof.
  intros Hinv H. apply step_cases in H. destruct H as [s1 [H ->]].
  destruct (updateHighScore_frame s1) as [_ [_ [_ [_ [Hd Hq]]]]].
  apply (DirInv_frame s1); auto. clear Hd Hq.
  destruct e as [k| |n|]; simpl in H.
  - inversion H; subst. now apply handleKeyDown_DirInv.
  - destruct (GameState_eqb (gameState s) PLAYING).
    + unfold moveSnake in H. destruct (advance_directions _ _ _ H) as [Hd Hq].
      apply (DirInv_frame (dequeue s)); auto. now apply dequeue_DirInv.
    + now inversion H; subst.
  - destruct (GameState_eqb (gameState s) MENU).
    + eapply startGame_DirInv; eassumption.
    + now inversion H; subst.
  - destruct (GameState_eqb (gameState s) GAME_OVER); inversion H; subst; auto.
Qed.

Lemma boot_DirInv (saved : option JsNumber) : DirInv (boot saved).
Proof.
  unfold boot.
  destruct (updateHighScore_frame (loadHighScore (initialState saved)))
    as [_ [_ [_ [_ [Hd Hq]]]]].
  apply (DirInv_frame (loadHighScore (initialState saved))); auto.
  unfold loadHighScore.
  destruct (storage (initialState saved)); unfold DirInv, isUnit; simpl; auto.
Qed.

Lemma reachable_DirInv (saved : option JsNumber) (fuel : nat) (evs : list Event) (s : State) :
  run rnd fuel evs (boot saved) = Ok s -> DirInv s.
Proof.
  apply (run_invariant rnd DirInv fuel (step_DirInv fuel)). apply boot_DirInv.
Qed.

(** Along key and tick events, the applied directions extend the reference
    direction without a reversal. *)
Lemma appliedDirections_steady (fuel : nat) (evs : list Event) (s : State) :
  DirInv s -> Forall isKeyOrTick evs ->
  steady (directionRef s) (appliedDirections rnd fuel evs s).
Proof.
  revert s. induction evs as [|e evs IH]; intros s Hinv Hev; [exact I|].
  inversion Hev as [|? ? He Hev']; subst.
  destruct e as [k| |n|]; simpl in He; try contradiction.
  - cbn [appliedDirections app].
    destruct (step rnd fuel (KeyDown k) s) as [s'| |] eqn:E; try exact I.
    pose proof (step_DirInv _ _ _ _ Hinv E) as Hinv'.
    assert (Hd : directionRef s' = directionRef s).
    { apply step_cases in E. destruct E as [s1 [H ->]]. simpl in H.
      inversion H; subst.
      destruct (updateHighScore_frame (handleKeyDown k s)) as [_ [_ [_ [_ [-> _]]]]].
      apply handleKeyDown_frame. }
    rewrite <- Hd. now apply IH.
  - cbn [appliedDirections].
    destruct (GameState_eqb (gameState s) PLAYING) eqn:Eg.
    + cbn [app]. split; [now apply dequeue_no_reverse|].
      destruct (step rnd fuel Tick s) as [s'| |] eqn:E; try exact I.
      pose proof (step_DirInv _ _ _ _ Hinv E) as Hinv'.
      assert (Hd : directionRef s' = directionRef (dequeue s)).
      { apply step_cases in E. destruct E as [s1 [H ->]]. simpl in H.
        rewrite Eg in H. unfold moveSnake in H.
        destruct (updateHighScore_frame s1) as [_ [_ [_ [_ [-> _]]]]].
        apply (advance_directions _ _ _ H). }
      rewrite <- Hd. now apply IH.
    + cbn [app].
      destruct (step rnd fuel Tick s) as [s'| |] eqn:E; try exact I.
      pose proof (step_DirInv _ _ _ _ Hinv E) as Hinv'.
      assert (Hd : directionRef s' = directionRef s).
      { unfold step in E. simpl in E. rewrite Eg in E. simpl in E.
        inversion E; subst. apply updateHighScore_frame. }
      rewrite <- Hd. now apply IH.
Qed.

(** C2. From any state a run has reached, along any sequence of key events
    and ticks, the direction in effect at a tick is never the component-wise
    negation of the direction in effect at the tick before it (nor, for the
    first tick, of the direction in effect in the state the sequence starts
    from). *)
Theorem no_reversal_between_ticks
  (saved : option JsNumber) (fuel : nat) (history : list Event) (s : State)
  (evs : list Event) :
  run rnd fuel history (boot saved) = Ok s ->
  Forall isKeyOrTick evs ->
  noReversal (directionRef s :: appliedDirections rnd fuel evs s).
Proof.
  intros Hrun Hev. apply steady_noReversal.
  apply appliedDirections_steady; [|exact Hev].
  exact (reachable_DirInv _ _ _ _ Hrun).
Qed.

End Directions.

(** ** Score and high score *)

Section Scores.

Variable rnd : nat -> Z.

Lemma updateHighScore_scores (s : State) :
  score (updateHighScore s) = score s /\
  match highScore (updateHighScore s) with
  | Num h => score s <= h
  | NaN => True
  end /\
  (forall h, highScore s = Num h ->
             exists h', highScore (updateHighScore s) = Num h' /\ h <= h').
Proof.
  unfold updateHighScore. destruct (highScore s) as [h|] eqn:E; cbn [JsNumber_gtb].
  - destruct (Z.gtb_spec (score s) h); simpl; rewrite ?E.
    + split; [reflexivity|]. split; [lia|].
      intros h0 Hh0. inversion Hh0; subst. exists (score s). split; [reflexivity | lia].
    + split; [reflexivity|]. split; [lia|].
      intros h0 Hh0. inversion Hh0; subst. exists h0. split; [reflexivity | lia].
  - rewrite E. split; [reflexivity|]. split; [exact I|]. discriminate.
Qed.

(** An event leaves the high score alone and keeps the score, adds 10 to
    it, or resets it to 0. *)
Lemma handle_scores (fuel : nat) (e : Event) (s s1 : State) :
  handle rnd fuel e s = Ok s1 ->
  highScore s1 = highScore s /\
  (score s1 = score s \/ score s1 = score s + 10 \/ score s1 = 0).
Proof.
  destruct e as [k| |n|]; simpl; intros H.
  - inversion H; subst.
    destruct (handleKeyDown_frame k s) as [_ [_ [_ [Hs [Hh _]]]]]. auto.
  - destruct (GameState_eqb (gameState s) PLAYING); [|inversion H; subst; auto].
    unfold moveSnake in H.
    destruct (dequeue_frame s) as [_ [_ [_ [Hs [Hh _]]]]].
    destruct (advance_cases rnd fuel _ _ H) as [head [rest [_ Hc]]].
    destruct Hc as [[_ ->] | [[_ [_ [_ [p [c [_ ->]]]]]] | [_ [_ [_ ->]]]]];
      simpl; rewrite Hs, Hh; auto.
  - destruct (GameState_eqb (gameState s) MENU); [|inversion H; subst; auto].
    unfold startGame in H. simpl calls in H.
    destruct (getRandomPosition rnd fuel (calls s) [(0, 0); (0, -1); (0, -2)])
      as [r| |]; simpl in H; try discriminate.
    inversion H; subst; simpl. auto.
  - destruct (GameState_eqb (gameState s) GAME_OVER); inversion H; subst; auto.
Qed.

Lemma step_ScoreInv (fuel : nat) (e : Event) (s s' : State) :
  ScoreInv s -> step rnd fuel e s = Ok s' -> ScoreInv s'.
Proof.
  intros [H0 [[q Hq] Hle]] H. apply step_cases in H. destruct H as [s1 [H ->]].
  destruct (handle_scores _ _ _ _ H) as [Hh Hs].
  destruct (updateHighScore_scores s1) as [Es [Hge _]].
  unfold ScoreInv. rewrite Es. split; [lia|]. split; [|exact Hge].
  destruct Hs as [-> | [-> | ->]].
  - now exists q.
  - exists (q + 1). lia.
  - now exists 0.
Qed.

(** A high score that is a number stays a number and never decreases. *)
Lemma step_highScore_mono (fuel : nat) (e : Event) (s s' : State) (h : Z) :
  step rnd fuel e s = Ok s' ->
  highScore s = Num h ->
  exists h', highScore s' = Num h' /\ h <= h'.
Proof.
  intros H Hh. apply step_cases in H. destruct H as [s1 [H ->]].
  destruct (handle_scores _ _ _ _ H) as [E _].
  destruct (updateHighScore_scores s1) as [_ [_ Hm]].
  apply Hm. congruence.
Qed.

Lemma run_highScore_mono (fuel : nat) (evs : list Event) (s s' : State) (h : Z) :
  run rnd fuel evs s = Ok s' ->
  highScore s = Num h ->
  exists h', highScore s' = Num h' /\ h <= h'.
Proof.
  revert s h. induction evs as [|e evs IH]; intros s h H Hh; simpl in H.
  - inversion H; subst. exists h. split; [exact Hh | lia].
  - destruct (step rnd fuel e s) as [s1| |] eqn:E; simpl in H; try discriminate.
    destruct (step_highScore_mono _ _ _ _ _ E Hh) as [h1 [Hh1 Hle1]].
    destruct (IH _ _ H Hh1) as [h' [Hh' Hle']].
    exists h'. split; [exact Hh' | lia].
Qed.

Lemma boot_ScoreInv (saved : option JsNumber) : ScoreInv (boot saved).
Proof.
  unfold boot, ScoreInv.
  destruct (updateHighScore_scores (loadHighScore (initialState saved)))
    as [Es [Hge _]].
  rewrite Es.
  assert (E0 : score (loadHighScore (initialState saved)) = 0)
    by (unfold loadHighScore; destruct (storage (initialState saved)); reflexivity).
  rewrite E0 in *. split; [lia|]. split; [now exists 0 | exact Hge].
Qed.

Lemma reachable_ScoreInv (saved : option JsNumber) (fuel : nat) (evs : list Event) (s : State) :
  run rnd fuel evs (boot saved) = Ok s -> ScoreInv s.
Proof.
  apply (run_invariant rnd ScoreInv fuel (step_ScoreInv fuel)). apply boot_ScoreInv.
Qed.

(** Unless the stored string is not a number, the page loads with a high
    score that is a number. *)
Lemma boot_numeric (saved : option JsNumber) :
  saved <> Some NaN -> exists h, highScore (boot saved) = Num h.
Proof.
  intros Hs. unfold boot, loadHighScore, updateHighScore. simpl storage.
  destruct saved as [[v|]|]; simpl.
  - destruct (0 >? v); simpl; eauto.
  - congruence.
  - eauto.
Qed.

Lemma reachable_not_a_number (fuel : nat) (evs : list Event) (s : State) :
  run rnd fuel evs (boot (Some NaN)) = Ok s ->
  highScore s = NaN /\ storage s = Some NaN.
Proof.
  apply (run_invariant rnd (fun s => highScore s = NaN /\ storage s = Some NaN) fuel);
    [|split; reflexivity].
  intros e s0 s' [Hh Hst] H. apply step_cases in H. destruct H as [s1 [H ->]].
  destruct (handle_scores _ _ _ _ H) as [E _].
  assert (Est : storage s1 = storage s0).
  { destruct e as [k| |n|]; simpl in H.
    - inversion H; subst.
      destruct (handleKeyDown_cases k s0) as [E1|[E1|[d [_ [_ E1]]]]];
        rewrite E1; reflexivity.
    - destruct (GameState_eqb (gameState s0) PLAYING); [|now inversion H].
      unfold moveSnake in H.
      destruct (advance_cases rnd fuel _ _ H) as [head [rest [_ Hc]]].
      assert (Ed : storage (dequeue s0) = storage s0)
        by (unfold dequeue; destruct (moveQueue s0); reflexivity).
      destruct Hc as [[_ ->] | [[_ [_ [_ [p [c [_ ->]]]]]] | [_ [_ [_ ->]]]]];
        simpl; exact Ed.
    - destruct (GameState_eqb (gameState s0) MENU); [|now inversion H].
      unfold startGame in H. simpl calls in H.
      destruct (getRandomPosition rnd fuel (calls s0) [(0, 0); (0, -1); (0, -2)])
        as [r| |]; simpl in H; try discriminate.
      now inversion H.
    - destruct (GameState_eqb (gameState s0) GAME_OVER); now inversion H. }
  unfold updateHighScore. rewrite E, Hh. simpl. rewrite E, Est. auto.
Qed.

(** C8, as the code has it.  In every state a run reaches after the page
    has loaded, the score is a non-negative multiple of 10.  When the
    stored value is absent or a number, the high score is a number, at
    least the score of every state the run went through.  The high-score
    effect, run in a state whose score exceeds the high score, sets the
    high score to the score and stores it. *)
Theorem score_and_high_score
  (saved : option JsNumber) (fuel : nat) (evs1 evs2 : list Event) (s1 s2 : State) :
  run rnd fuel evs1 (boot saved) = Ok s1 ->
  run rnd fuel evs2 s1 = Ok s2 ->
  (0 <= score s2 /\ (10 | score s2)) /\
  (saved <> Some NaN ->
   exists h : Z, highScore s2 = Num h /\ score s1 <= h) /\
  (forall t : State,
     JsNumber_gtb (Num (score t)) (highScore t) = true ->
     highScore (updateHighScore t) = Num (score t) /\
     storage (updateHighScore t) = Some (Num (score t))).
Proof.
  intros H1 H2.
  pose proof (reachable_ScoreInv _ _ _ _ H1) as [_ [_ Hle1]].
  pose proof (reachable_ScoreInv _ _ _ _ (run_app rnd _ _ _ _ _ _ H1 H2))
    as [Hpos [Hdiv _]].
  split; [split; assumption|]. split.
  - intros Hsaved.
    destruct (boot_numeric saved Hsaved) as [h0 Hh0].
    destruct (run_highScore_mono _ _ _ _ _ H1 Hh0) as [h1 [Hh1 _]].
    destruct (run_highScore_mono _ _ _ _ _ H2 Hh1) as [h2 [Hh2 Hle2]].
    rewrite Hh1 in Hle1. exists h2. split; [exact Hh2 | lia].
  - intros t Ht. unfold updateHighScore. rewrite Ht. split; reflexivity.
Qed.

End Scores.

(** ** The scenario of the initial configuration *)

Section Scenario.

Variable rnd : nat -> Z.

Lemma scenario_two_ticks (fuel : nat) :
  ticks rnd fuel 2 scenario =
  Ok (mkState PLAYING 120 0 (Num 0) THIRD_PERSON [(0, 4); (0, 3); (0, 2)] (0, 5)
        (0, 1) (0, 1) [] None 0).
Proof. reflexivity. Qed.

Lemma scenario_third_tick (fuel : nat) :
  ticks rnd fuel 3 scenario =
  (r <- getRandomPosition rnd fuel 0 [(0, 5); (0, 4); (0, 3); (0, 2)] ;;
   Ok (mkState PLAYING 120 10 (Num 10) THIRD_PERSON [(0, 5); (0, 4); (0, 3); (0, 2)]
         (fst r) (0, 1) (0, 1) [] (Some (Num 10)) (snd r))).
Proof.
  change (ticks rnd fuel 3 scenario) with
    (s2 <- ticks rnd fuel 2 scenario ;; s3 <- step rnd fuel Tick s2 ;; Ok s3).
  rewrite scenario_two_ticks. unfold bind at 1.
  unfold step, handle, moveSnake, advance. simpl.
  change (addDir (0, 4) (0, 1)) with ((0, 5) : Cell).
  unfold Cell, Direction.
  destruct (getRandomPosition rnd fuel 0 [(0, 5); (0, 4); (0, 3); (0, 2)]);
    reflexivity.
Qed.

(** C5, as the code has it.  From the scenario state (bound 10, snake
    (0,2), (0,1), (0,0), direction (0,1), food (0,5), empty queue, no
    input): after two ticks the snake still has length 3 and the score is
    0, and the new head of the next tick is the food cell; it is the third
    tick that registers the food-eat, so that after three ticks the head is
    at (0,5), the snake has length 4 and the score is 10. *)
Theorem scenario_eats_on_third_tick :
  eventuallyFree rnd 0 [(0, 5); (0, 4); (0, 3); (0, 2)] ->
  exists (fuel : nat) (s2 s3 : State),
    ticks rnd fuel 2 scenario = Ok s2 /\
    List.length (snake s2) = 3%nat /\ score s2 = 0 /\
    cellEqb (newHeadOf s2) (food s2) = true /\
    ticks rnd fuel 3 scenario = Ok s3 /\
    hd_error (snake s3) = Some (0, 5) /\
    List.length (snake s3) = 4%nat /\ score s3 = 10.
Proof.
  intros [k Hk].
  destruct (getRandomPosition_complete rnd k 0 _ Hk) as [r Hr].
  exists (S k). eexists. eexists.
  split; [apply scenario_two_ticks|].
  do 3 (split; [reflexivity|]).
  split; [rewrite scenario_third_tick, Hr; reflexivity|].
  repeat split.
Qed.

End Scenario.

(** ** Concrete runs *)

Lemma rndZero_inRange : inRange rndZero.
Proof. intros n. unfold rndZero, GRID_SIZE. lia. Qed.

Example keys_are_case_insensitive :
  keyDirection (toLowerCase "ArrowUp") = Some (0, -1) /\
  keyDirection (toLowerCase "W") = Some (0, -1) /\
  keyDirection (toLowerCase "d") = Some (1, 0) /\
  keyDirection (toLowerCase "Enter") = None.
Proof. repeat split. Qed.

(** A reversal of the direction in effect is not queued. *)
Example reverse_key_rejected :
  handleKeyDown "ArrowUp"
    (setSnake [(0, 0); (0, -1); (0, -2); (0, -3); (0, -4)] scenario)
  = setSnake [(0, 0); (0, -1); (0, -2); (0, -3); (0, -4)] scenario.
Proof. reflexivity. Qed.

(** A reversal of the last queued direction is not queued either. *)
Example reverse_of_queued_key_rejected :
  moveQueue (handleKeyDown "d" (handleKeyDown "a" scenario)) = [(-1, 0)].
Proof. reflexivity. Qed.

(** The tail exclusion of the self-collision loop relies on the food being
    off the snake: in a state with the food on the tail tip, which no run
    reaches, the growth tick returns a snake with a repeated cell. *)
Example growth_onto_tail_needs_food_on_tail :
  NoDup (snake foodOnTail) /\
  exists s' : State,
    moveSnake rndZero 1 foodOnTail = Ok s' /\ ~ NoDup (snake s').
Proof.
  split.
  - simpl. repeat constructor; simpl; intuition congruence.
  - eexists. split; [reflexivity|]. simpl. intros H.
    inversion H as [|? ? Hn _]; subst. apply Hn. simpl. auto 10.
Qed.

(** C5, as stated, fails whatever the random source does: no run of the
    scenario has a fourth tick that lands on the food and leaves the snake
    at length 4 with the score at 10, because the third tick has already
    eaten. *)
Lemma scenario_fourth_tick_does_not_eat :
  ~ exists (rnd : nat -> Z) (fuel : nat) (s3 s4 : State),
      ticks rnd fuel 3 scenario = Ok s3 /\
      hd_error (snake s3) = Some (0, 5) /\
      cellEqb (newHeadOf s3) (food s3) = true /\
      moveSnake rnd fuel s3 = Ok s4 /\
      List.length (snake s4) = 4%nat /\ score s4 = 10.
Proof.
  intros (rnd & fuel & s3 & s4 & H3 & _ & Heat & H4 & _ & Hsc).
  rewrite scenario_third_tick in H3.
  destruct (getRandomPosition rnd fuel 0 [(0, 5); (0, 4); (0, 3); (0, 2)])
    as [[p c]| |]; simpl in H3; try discriminate.
  inversion H3; subst s3; clear H3.
  unfold newHeadOf in Heat. simpl in Heat.
  unfold moveSnake, advance in H4. simpl in H4.
  change (addDir (0, 5) (0, 1)) with ((0, 6) : Cell) in *.
  rewrite Heat in H4.
  match type of H4 with
  | context [getRandomPosition rnd fuel c ?l] =>
      destruct (getRandomPosition rnd fuel c l) as [r| |]
  end; simpl in H4; try discriminate.
  inversion H4; subst s4. simpl in Hsc. discriminate.
Qed.

Lemma rndRetry_inRange : inRange rndRetry.
Proof.
  intros n. unfold rndRetry, GRID_SIZE. destruct (n <? 2)%nat; lia.
Qed.

Lemma rndAhead_inRange : inRange rndAhead.
Proof.
  intros n. unfold rndAhead, GRID_SIZE.
  pose proof (Nat.mod_upper_bound (n / 2) 8).
  destruct (Nat.even n); lia.
Qed.

(** ** The theorems at concrete inputs *)

Lemma snake_never_overlaps_witness :
  exists s : State,
    run rndZero 1 [ClickSpeed SLOW; Tick] (boot None) = Ok s /\
    gameState s = PLAYING /\
    NoDup (snake s) /\
    forall (fuel' : nat) (s' : State),
      moveSnake rndZero fuel' s = Ok s' -> NoDup (snake s').
Proof.
  eexists. split; [vm_compute; reflexivity|]. split; [reflexivity|].
  apply (snake_never_overlaps rndZero None 1 [ClickSpeed SLOW; Tick]);
    reflexivity.
Defined.

Lemma no_reversal_between_ticks_witness :
  exists s : State,
    run rndZero 1 [ClickSpeed SLOW] (boot None) = Ok s /\
    Forall isKeyOrTick [KeyDown "a"; KeyDown "d"; Tick; Tick] /\
    appliedDirections rndZero 1 [KeyDown "a"; KeyDown "d"; Tick; Tick] s
      = [(-1, 0); (-1, 0)] /\
    noReversal
      (directionRef s ::
       appliedDirections rndZero 1 [KeyDown "a"; KeyDown "d"; Tick; Tick] s).
Proof.
  eexists. split; [vm_compute; reflexivity|].
  split; [repeat constructor|]. split; [reflexivity|].
  apply (no_reversal_between_ticks rndZero None 1 [ClickSpeed SLOW]).
  - reflexivity.
  - repeat constructor.
Defined.

Lemma tick_length_witness :
  exists s : State,
    run rndAhead 1 [ClickSpeed SLOW; Tick; Tick] (boot None) = Ok s /\
    gameState s = PLAYING /\
    cellEqb (newHeadOf s) (food s) = true /\
    (forall (fuel' : nat) (s' : State),
       moveSnake rndAhead fuel' s = Ok s' ->
       List.length (snake s') =
       (List.length (snake s) + if cellEqb (newHeadOf s) (food s) then 1 else 0)%nat)
    /\
    ((cellEqb (newHeadOf s) (food s) = true ->
      eventuallyFree rndAhead (calls s) (newHeadOf s :: snake s)) ->
     exists (fuel' : nat) (s' : State), moveSnake rndAhead fuel' s = Ok s').
Proof.
  eexists. split; [vm_compute; reflexivity|]. split; [reflexivity|]. split; [reflexivity|].
  apply (tick_length rndAhead rndAhead_inRange None 1 [ClickSpeed SLOW; Tick; Tick]);
    reflexivity.
Defined.

Lemma collision_ends_game_witness :
  snake atEastWall <> [] /\
  ~ inGrid (newHeadOf atEastWall) /\
  exists s' : State,
    moveSnake rndZero 0 atEastWall = Ok s' /\
    gameState s' = GAME_OVER /\
    snake s' = snake atEastWall /\ food s' = food atEastWall /\
    score s' = score atEastWall.
Proof.
  assert (Hout : ~ inGrid (newHeadOf atEastWall)).
  { unfold inGrid. simpl. rewrite BOUNDARY_eq. lia. }
  split; [discriminate|]. split; [exact Hout|].
  apply (collision_ends_game rndZero 0 atEastWall); [discriminate|].
  left. exact Hout.
Defined.

Lemma scenario_eats_on_third_tick_witness :
  eventuallyFree rndZero 0 [(0, 5); (0, 4); (0, 3); (0, 2)] /\
  exists (fuel : nat) (s2 s3 : State),
    ticks rndZero fuel 2 scenario = Ok s2 /\
    List.length (snake s2) = 3%nat /\ score s2 = 0 /\
    cellEqb (newHeadOf s2) (food s2) = true /\
    ticks rndZero fuel 3 scenario = Ok s3 /\
    hd_error (snake s3) = Some (0, 5) /\
    List.length (snake s3) = 4%nat /\ score s3 = 10.
Proof.
  assert (Hfree : eventuallyFree rndZero 0 [(0, 5); (0, 4); (0, 3); (0, 2)])
    by (exists 0%nat; reflexivity).
  split; [exact Hfree|].
  apply (scenario_eats_on_third_tick rndZero Hfree).
Defined.

Lemma getRandomPosition_free_cell_witness :
  inRange rndRetry /\
  eventuallyFree rndRetry 0 initialSnake /\
  exists (fuel : nat) (p : Cell) (c : nat),
    getRandomPosition rndRetry fuel 0 initialSnake = Ok (p, c) /\
    (forall fuel' r, getRandomPosition rndRetry fuel' 0 initialSnake = Ok r -> r = (p, c)) /\
    inGrid p /\ ~ In p initialSnake.
Proof.
  assert (Hfree : eventuallyFree rndRetry 0 initialSnake)
    by (exists 1%nat; reflexivity).
  split; [exact rndRetry_inRange|]. split; [exact Hfree|].
  apply (getRandomPosition_free_cell rndRetry 0 initialSnake rndRetry_inRange Hfree).
Defined.

Lemma startGame_resets_witness :
  eventuallyFree rndRetry (calls (boot None)) initialSnake /\
  exists (fuel : nat) (s' : State),
    startGame rndRetry fuel (SPEEDS FAST) (boot None) = Ok s' /\
    (forall fuel2 s2,
       startGame rndRetry fuel2 (SPEEDS FAST) (boot None) = Ok s2 -> s2 = s') /\
    snake s' = [(0, 0); (0, -1); (0, -2)] /\
    direction s' = (0, 1) /\ directionRef s' = (0, 1) /\
    moveQueue s' = [] /\
    score s' = 0 /\
    ~ In (food s') (snake s') /\
    gameState s' = PLAYING /\
    speed s' = SPEEDS FAST.
Proof.
  assert (Hfree : eventuallyFree rndRetry (calls (boot None)) initialSnake)
    by (exists 1%nat; reflexivity).
  split; [exact Hfree|].
  apply (startGame_resets rndRetry (SPEEDS FAST) (boot None) Hfree).
Defined.

Lemma score_and_high_score_witness :
  exists s1 s2 : State,
    run rndAhead 1 (ClickSpeed SLOW :: repeat Tick 5) (boot (Some (Num 30))) = Ok s1 /\
    run rndAhead 1 (repeat Tick 3) s1 = Ok s2 /\
    score s1 = 30 /\ score s2 = 60 /\ highScore s2 = Num 60 /\
    Some (Num 30) <> Some NaN /\
    (0 <= score s2 /\ (10 | score s2)) /\
    (Some (Num 30) <> Some NaN ->
     exists h : Z, highScore s2 = Num h /\ score s1 <= h) /\
    (forall t : State,
       JsNumber_gtb (Num (score t)) (highScore t) = true ->
       highScore (updateHighScore t) = Num (score t) /\
       storage (updateHighScore t) = Some (Num (score t))).
Proof.
  eexists. eexists. split; [vm_compute; reflexivity|].
  split; [vm_compute; reflexivity|].
  do 3 (split; [reflexivity|]). split; [discriminate|].
  apply (score_and_high_score rndAhead (Some (Num 30)) 1
           (ClickSpeed SLOW :: repeat Tick 5) (repeat Tick 3)); reflexivity.
Defined.

(** C8, as stated, fails when the stored string is not a number: the high
    score is then [NaN] for the whole run, the comparison of the effect is
    never true, and after the first food the high score is not at least
    the score. *)
Lemma high_score_not_a_number_counterexample :
  ~ (forall (saved : option JsNumber) (fuel : nat) (evs : list Event) (s : State),
       run rndAhead fuel evs (boot saved) = Ok s ->
       JsNumber_geb (highScore s) (Num (score s)) = true).
Proof.
  intros H.
  assert (E : exists s : State,
             run rndAhead 1 (ClickSpeed SLOW :: repeat Tick 3) (boot (Some NaN)) = Ok s /\
             score s = 10 /\ storage s = Some NaN /\
             JsNumber_geb (highScore s) (Num (score s)) = false)
    by (eexists; split; [vm_compute; reflexivity | repeat split]).
  destruct E as [s [Hr [_ [_ Hf]]]].
  rewrite (H _ _ _ _ Hr) in Hf. discriminate.
Qed.

Lemma food_never_on_snake_witness :
  exists s : State,
    run rndRetry 2 [ClickSpeed MEDIUM; KeyDown "ArrowLeft"; Tick] (boot None) = Ok s /\
    gameState s = PLAYING /\
    ~ In (food s) (snake s).
Proof.
  eexists. split; [vm_compute; reflexivity|]. split; [reflexivity|].
  apply (food_never_on_snake rndRetry None 2
           [ClickSpeed MEDIUM; KeyDown "ArrowLeft"; Tick]); reflexivity.
Defined.

Lemma handleKeyDown_not_playing_witness :
  gameState (boot None) <> PLAYING /\
  handleKeyDown "w" (boot None) = boot None /\
  moveQueue (handleKeyDown "w" (boot None)) = moveQueue (boot None) /\
  directionRef (handleKeyDown "w" (boot None)) = directionRef (boot None) /\
  direction (handleKeyDown "w" (boot None)) = direction (boot None) /\
  viewMode (handleKeyDown "w" (boot None)) = viewMode (boot None).
Proof.
  split; [discriminate|].
  apply (handleKeyDown_not_playing "w" (boot None)). discriminate.
Defined.

(** * Further properties of the game *)

(** ** How the handlers change the state *)

Section Handlers.

Variable rnd : nat -> Z.

Lemma startGame_cases (fuel : nat) (sp : Z) (s s' : State) :
  startGame rnd fuel sp s = Ok s' ->
  exists (p : Cell) (c : nat),
    getRandomPosition rnd fuel (calls s) initialSnake = Ok (p, c) /\
    s' = mkState PLAYING sp 0 (highScore s) THIRD_PERSON initialSnake p
           (0, 1) (0, 1) [] (storage s) c.
Proof.
  unfold startGame, initialSnake. simpl calls.
  destruct (getRandomPosition rnd fuel (calls s) [(0, 0); (0, -1); (0, -2)])
    as [[p c]| |]; simpl; try discriminate.
  intros H. exists p, c. split; [reflexivity | now inversion H].
Qed.

(** The ways an event can go through. *)
Lemma handle_cases (fuel : nat) (e : Event) (s s1 : State) :
  handle rnd fuel e s = Ok s1 ->
  (exists k, e = KeyDown k /\ s1 = handleKeyDown k s) \/
  (e = Tick /\ gameState s = PLAYING /\ moveSnake rnd fuel s = Ok s1) \/
  (exists n, e = ClickSpeed n /\ gameState s = MENU /\
             startGame rnd fuel (SPEEDS n) s = Ok s1) \/
  (e = ClickMainMenu /\ gameState s = GAME_OVER /\ s1 = setGameState MENU s) \/
  (s1 = s /\
   match e with
   | KeyDown _ => False
   | Tick => gameState s <> PLAYING
   | ClickSpeed _ => gameState s <> MENU
   | ClickMainMenu => gameState s <> GAME_OVER
   end).
Proof.
  destruct e as [k| |n|]; simpl; intros H.
  - left. exists k. now inversion H.
  - destruct (GameState_eqb (gameState s) PLAYING) eqn:E.
    + right; left. apply GameState_eqb_eq in E. auto.
    + do 4 right. apply GameState_eqb_neq in E. inversion H; subst; auto.
  - destruct (GameState_eqb (gameState s) MENU) eqn:E.
    + right; right; left. apply GameState_eqb_eq in E. eauto.
    + do 4 right. apply GameState_eqb_neq in E. inversion H; subst; auto.
  - destruct (GameState_eqb (gameState s) GAME_OVER) eqn:E.
    + right; right; right; left. apply GameState_eqb_eq in E. inversion H; subst; auto.
    + do 4 right. apply GameState_eqb_neq in E. inversion H; subst; auto.
Qed.

(** A property that holds when the page has loaded and that every handler
    and the high-score effect keep holds in every state a run reaches. *)
Lemma reachable_ind (P : State -> Prop) :
  (forall saved, P (boot saved)) ->
  (forall k s, P s -> P (handleKeyDown k s)) ->
  (forall fuel s s', P s -> gameState s = PLAYING ->
                     moveSnake rnd fuel s = Ok s' -> P s') ->
  (forall fuel sp s s', P s -> startGame rnd fuel sp s = Ok s' -> P s') ->
  (forall s, P s -> P (setGameState MENU s)) ->
  (forall s, P s -> P (updateHighScore s)) ->
  forall saved fuel evs s, run rnd fuel evs (boot saved) = Ok s -> P s.
Proof.
  intros Hboot Hkey Htick Hstart Hmenu Heff saved fuel evs s.
  apply (run_invariant rnd P fuel); [|apply Hboot].
  intros e s0 s' HP H. apply step_cases in H. destruct H as [s1 [H ->]].
  apply Heff.
  destruct (handle_cases _ _ _ _ H)
    as [[k [_ ->]] | [[_ [Hg Ht]] | [[n [_ [_ Hs]]] | [[_ [_ ->]] | [-> _]]]]]; eauto.
Qed.

Lemma run_split (fuel : nat) (evs1 evs2 : list Event) (s s2 : State) :
  run rnd fuel (evs1 ++ evs2) s = Ok s2 ->
  exists s1 : State, run rnd fuel evs1 s = Ok s1 /\ run rnd fuel evs2 s1 = Ok s2.
Proof.
  revert s. induction evs1 as [|e evs1 IH]; intros s H; simpl in *.
  - eauto.
  - destruct (step rnd fuel e s) as [s'| |]; simpl in *; try discriminate.
    now apply IH.
Qed.

(** The tick leaves these fields alone. *)
Lemma moveSnake_frame (fuel : nat) (s s' : State) :
  moveSnake rnd fuel s = Ok s' ->
  speed s' = speed s /\ highScore s' = highScore s /\
  storage s' = storage s /\ viewMode s' = viewMode s.
Proof.
  unfold moveSnake. intros H.
  destruct (advance_cases rnd fuel _ _ H) as [head [rest [_ Hc]]].
  assert (Hd : speed (dequeue s) = speed s /\ highScore (dequeue s) = highScore s /\
               storage (dequeue s) = storage s /\ viewMode (dequeue s) = viewMode s)
    by (unfold dequeue; destruct (moveQueue s); repeat split).
  destruct Hc as [[_ ->] | [[_ [_ [_ [p [c [_ ->]]]]]] | [_ [_ [_ ->]]]]];
    simpl; exact Hd.
Qed.

(** What a tick that returns has done: it ended the game on a collision
    and kept the snake, or it moved the head onto the new head cell. *)
Lemma moveSnake_outcome (fuel : nat) (s s' : State) :
  moveSnake rnd fuel s = Ok s' ->
  snake s <> [] /\
  directionRef s' = directionRef (dequeue s) /\
  direction s' = direction (dequeue s) /\
  moveQueue s' = tl (moveQueue s) /\
  ((hitsWall (newHeadOf s) = true \/ hitsSelf (newHeadOf s) (snake s) = true) /\
   gameState s' = GAME_OVER /\ snake s' = snake s /\
   food s' = food s /\ score s' = score s
   \/
   hitsWall (newHeadOf s) = false /\ hitsSelf (newHeadOf s) (snake s) = false /\
   gameState s' = gameState s /\
   (cellEqb (newHeadOf s) (food s) = true /\
    snake s' = newHeadOf s :: snake s /\ score s' = score s + 10
    \/
    cellEqb (newHeadOf s) (food s) = false /\
    snake s' = newHeadOf s :: removelast (snake s) /\ score s' = score s /\
    food s' = food s)).
Proof.
  unfold moveSnake. intros H.
  destruct (advance_cases rnd fuel _ _ H) as [head [rest [Es Hc]]].
  destruct (dequeue_frame s) as [Hg [Hs [Hf [Hsc _]]]].
  assert (Hq : moveQueue (dequeue s) = tl (moveQueue s))
    by (unfold dequeue; destruct (moveQueue s) eqn:Eq; simpl;
        [exact Eq | reflexivity]).
  unfold newHeadOf. rewrite Hs in Es, Hc. rewrite Es in *. simpl hd.
  rewrite Hf in Hc. split; [discriminate|].
  destruct Hc as [[Hhit ->] | [[Hw [Hh [Heat [p [c [_ ->]]]]]] | [Hw [Hh [Hno ->]]]]];
    simpl; rewrite ?Hs, ?Hf, ?Hsc, ?Hg, ?Hq.
  - repeat (split; [reflexivity|]). left. auto.
  - repeat (split; [reflexivity|]). right. repeat (split; [assumption|]).
    split; [reflexivity|]. left. auto.
  - repeat (split; [reflexivity|]). right. repeat (split; [assumption|]).
    split; [reflexivity|]. right. auto.
Qed.

End Handlers.

(** ** Further invariants of the runs *)

Section Shape.

Variable rnd : nat -> Z.

Lemma boot_frame (saved : option JsNumber) :
  gameState (boot saved) = MENU /\
  snake (boot saved) = [(0, 2); (0, 1); (0, 0)] /\
  food (boot saved) = (0, 5) /\
  score (boot saved) = 0 /\
  direction (boot saved) = (0, 1) /\
  directionRef (boot saved) = (0, 1) /\
  moveQueue (boot saved) = [].
Proof.
  unfold boot, updateHighScore, loadHighScore. simpl storage.
  destruct saved as [[v|]|]; simpl; [destruct (0 >? v)| |]; repeat split.
Qed.

Lemma handleKeyDown_frame_more (k : string) (s : State) :
  speed (handleKeyDown k s) = speed s /\
  storage (handleKeyDown k s) = storage s /\
  direction (handleKeyDown k s) = direction s /\
  calls (handleKeyDown k s) = calls s.
Proof.
  destruct (handleKeyDown_cases k s) as [E|[E|[d [_ [_ E]]]]]; rewrite E;
    repeat split.
Qed.

Lemma Forall_removelast {A : Type} (P : A -> Prop) (l : list A) :
  Forall P l -> Forall P (removelast l).
Proof.
  intros H. apply Forall_forall. intros x Hx.
  apply In_removelast in Hx. revert x Hx. now apply Forall_forall.
Qed.

Lemma dequeue_queue (s : State) : moveQueue (dequeue s) = tl (moveQueue s).
Proof.
  unfold dequeue. destruct (moveQueue s) eqn:Eq; simpl; [exact Eq | reflexivity].
Qed.

Lemma initialSnake_inGrid : Forall inGrid initialSnake.
Proof.
  unfold initialSnake, inGrid. rewrite BOUNDARY_eq.
  repeat constructor; simpl; lia.
Qed.

(** *** The snake stays on the grid *)

Lemma reachable_snake_inGrid
  (saved : option JsNumber) (fuel : nat) (evs : list Event) (s : State) :
  run rnd fuel evs (boot saved) = Ok s -> Forall inGrid (snake s).
Proof.
  apply (reachable_ind rnd (fun s => Forall inGrid (snake s))); clear.
  - intros saved. destruct (boot_frame saved) as [_ [-> _]].
    unfold inGrid. rewrite BOUNDARY_eq. repeat constructor; simpl; lia.
  - intros k s H. destruct (handleKeyDown_frame k s) as [_ [-> _]]. exact H.
  - intros fuel s s' H _ Ht.
    destruct (moveSnake_outcome rnd _ _ _ Ht)
      as [_ [_ [_ [_ [[_ [_ [-> _]]] | [Hw [_ [_ Hm]]]]]]]]; [exact H|].
    apply hitsWall_inGrid in Hw.
    destruct Hm as [[_ [-> _]] | [_ [-> _]]]; constructor; auto.
    now apply Forall_removelast.
  - intros fuel sp s s' _ Hs.
    destruct (startGame_cases rnd _ _ _ _ Hs) as [p [c [_ ->]]].
    apply initialSnake_inGrid.
  - intros s H. exact H.
  - intros s H. destruct (updateHighScore_frame s) as [_ [-> _]]. exact H.
Qed.

(** X1. In every state a run reaches, every cell of the snake has both
    coordinates in [[-BOUNDARY, BOUNDARY]]. *)
Theorem snake_stays_on_grid
  (saved : option JsNumber) (fuel : nat) (evs : list Event) (s : State) (c : Cell) :
  run rnd fuel evs (boot saved) = Ok s ->
  In c (snake s) ->
  inGrid c.
Proof.
  intros Hrun Hin.
  pose proof (reachable_snake_inGrid _ _ _ _ Hrun) as H.
  rewrite Forall_forall in H. now apply H.
Qed.

(** *** The snake is a path of side-by-side cells *)

Lemma adjacent_addDir (h : Cell) (d : Direction) :
  isUnit d -> adjacent (addDir h d) h.
Proof.
  unfold isUnit, adjacent, addDir.
  intros [ -> | [ -> | [ -> | -> ] ] ]; simpl; lia.
Qed.

Lemma linked_removelast (l : list Cell) : linked l -> linked (removelast l).
Proof.
  induction l as [|a [|b [|c l]] IH]; simpl; auto.
  intros [Hab Hl]. split; [exact Hab|]. apply IH. exact Hl.
Qed.

Lemma linked_cons_removelast (n : Cell) (l : list Cell) :
  linked (n :: l) -> linked (n :: removelast l).
Proof.
  intros H. destruct l as [|a l]; [exact I|].
  change (n :: removelast (a :: l)) with (removelast (n :: a :: l)).
  now apply linked_removelast.
Qed.

Lemma reachable_linked
  (saved : option JsNumber) (fuel : nat) (evs : list Event) (s : State) :
  run rnd fuel evs (boot saved) = Ok s -> DirInv s /\ linked (snake s).
Proof.
  apply (reachable_ind rnd (fun s => DirInv s /\ linked (snake s))); clear.
  - intros saved. split; [apply boot_DirInv|].
    destruct (boot_frame saved) as [_ [-> _]].
    simpl; unfold adjacent; simpl; auto.
  - intros k s [Hd Hl]. split; [now apply handleKeyDown_DirInv|].
    destruct (handleKeyDown_frame k s) as [_ [-> _]]. exact Hl.
  - intros fuel s s' [Hd Hl] _ Ht.
    pose proof (dequeue_DirInv s Hd) as Hd'.
    destruct (moveSnake_outcome rnd _ _ _ Ht) as [Hne [Hr [_ [Hq Hc]]]].
    split.
    + apply (DirInv_frame (dequeue s)); auto.
      rewrite Hq. symmetry. apply dequeue_queue.
    + assert (Hn : linked (newHeadOf s :: snake s)).
      { unfold newHeadOf. destruct (snake s) as [|h rest]; [congruence|].
        simpl hd. split; [|exact Hl]. apply adjacent_addDir. apply Hd'. }
      destruct Hc as [[_ [_ [-> _]]] | [_ [_ [_ [[_ [-> _]] | [_ [-> _]]]]]]].
      * exact Hl.
      * exact Hn.
      * now apply linked_cons_removelast.
  - intros fuel sp s s' _ Hs. split; [eapply startGame_DirInv; eassumption|].
    destruct (startGame_cases rnd _ _ _ _ Hs) as [p [c [_ ->]]].
    simpl; unfold adjacent; simpl; auto.
  - intros s H. exact H.
  - intros s [Hd Hl].
    destruct (updateHighScore_frame s) as [_ [Hs [_ [_ [Hr Hq]]]]].
    split; [now apply (DirInv_frame s) | now rewrite Hs].
Qed.

(** X2. In every state a run reaches, consecutive cells of the snake are
    side by side: they differ by 1 in exactly one coordinate. *)
Theorem snake_is_connected
  (saved : option JsNumber) (fuel : nat) (evs : list Event) (s : State)
  (i : nat) (a b : Cell) :
  run rnd fuel evs (boot saved) = Ok s ->
  nth_error (snake s) i = Some a ->
  nth_error (snake s) (S i) = Some b ->
  Z.abs (fst a - fst b) + Z.abs (snd a - snd b) = 1.
Proof.
  intros Hrun. destruct (reachable_linked _ _ _ _ Hrun) as [_ Hl].
  revert i Hl. generalize (snake s) as l.
  induction l as [|x [|y l] IH]; intros i Hl Ha Hb.
  - destruct i; discriminate.
  - destruct i as [|[|i]]; discriminate.
  - destruct Hl as [Hxy Hl]. destruct i as [|i].
    + simpl in Ha, Hb. inversion Ha; inversion Hb; subst. exact Hxy.
    + apply (IH i Hl); assumption.
Qed.

(** *** The rendered direction is the direction in effect *)

Lemma reachable_direction_sync
  (saved : option JsNumber) (fuel : nat) (evs : list Event) (s : State) :
  run rnd fuel evs (boot saved) = Ok s -> direction s = directionRef s.
Proof.
  apply (reachable_ind rnd (fun s => direction s = directionRef s)); clear.
  - intros saved. destruct (boot_frame saved) as [_ [_ [_ [_ [-> [-> _]]]]]].
    reflexivity.
  - intros k s H.
    destruct (handleKeyDown_frame k s) as [_ [_ [_ [_ [_ ->]]]]].
    destruct (handleKeyDown_frame_more k s) as [_ [_ [-> _]]]. exact H.
  - intros fuel s s' H _ Ht.
    destruct (moveSnake_outcome rnd _ _ _ Ht) as [_ [-> [-> _]]].
    unfold dequeue. destruct (moveQueue s); [exact H | reflexivity].
  - intros fuel sp s s' _ Hs.
    destruct (startGame_cases rnd _ _ _ _ Hs) as [p [c [_ ->]]]. reflexivity.
  - intros s H. exact H.
  - intros s H. unfold updateHighScore.
    destruct (JsNumber_gtb (Num (score s)) (highScore s)); exact H.
Qed.

(** X9. In every state a run reaches, the [direction] state the camera is
    rendered with equals the reference direction the ticks apply, and it
    is one of the four unit vectors. *)
Theorem direction_is_unit_and_in_sync
  (saved : option JsNumber) (fuel : nat) (evs : list Event) (s : State) :
  run rnd fuel evs (boot saved) = Ok s ->
  direction s = directionRef s /\
  (directionRef s = (0, -1) \/ directionRef s = (0, 1) \/
   directionRef s = (-1, 0) \/ directionRef s = (1, 0)).
Proof.
  intros Hrun. split.
  - exact (reachable_direction_sync _ _ _ _ Hrun).
  - apply (reachable_DirInv rnd _ _ _ _ Hrun).
Qed.

End Shape.

(** ** Score, length and the size of the grid *)

Section Counting.

Variable rnd : nat -> Z.

Lemma reachable_score_length
  (saved : option JsNumber) (fuel : nat) (evs : list Event) (s : State) :
  run rnd fuel evs (boot saved) = Ok s ->
  score s = 10 * (Z.of_nat (List.length (snake s)) - 3).
Proof.
  apply (reachable_ind rnd
           (fun s => score s = 10 * (Z.of_nat (List.length (snake s)) - 3))); clear.
  - intros saved. destruct (boot_frame saved) as [_ [-> [_ [-> _]]]]. reflexivity.
  - intros k s H.
    destruct (handleKeyDown_frame k s) as [_ [-> [_ [-> _]]]]. exact H.
  - intros fuel s s' H _ Ht.
    destruct (moveSnake_outcome rnd _ _ _ Ht) as [Hne [_ [_ [_ Hc]]]].
    destruct Hc as [[_ [_ [-> [_ ->]]]] |
                    [_ [_ [_ [[_ [-> ->]] | [_ [-> [-> _]]]]]]]].
    + exact H.
    + rewrite H. simpl List.length. lia.
    + rewrite H. destruct (snake s) as [|h rest]; [congruence|].
      cbn [List.length]. rewrite length_removelast_cons. reflexivity.
  - intros fuel sp s s' _ Hs.
    destruct (startGame_cases rnd _ _ _ _ Hs) as [p [c [_ ->]]]. reflexivity.
  - intros s H. exact H.
  - intros s H. destruct (updateHighScore_frame s) as [_ [-> [_ [-> _]]]]. exact H.
Qed.

(** X3. In every state a run reaches, the snake has at least three cells
    and the score is ten times the number of cells beyond three. *)
Theorem score_counts_growth
  (saved : option JsNumber) (fuel : nat) (evs : list Event) (s : State) :
  run rnd fuel evs (boot saved) = Ok s ->
  (3 <= List.length (snake s))%nat /\
  score s = 10 * (Z.of_nat (List.length (snake s)) - 3).
Proof.
  intros Hrun.
  pose proof (reachable_score_length _ _ _ _ Hrun) as Hs.
  pose proof (reachable_ScoreInv rnd _ _ _ _ Hrun) as [H0 _].
  split; [lia | exact Hs].
Qed.

Lemma In_axis (x : Z) : In x axis <-> - BOUNDARY <= x <= BOUNDARY.
Proof.
  unfold axis. rewrite in_map_iff. rewrite BOUNDARY_eq. unfold GRID_SIZE. split.
  - intros [i [<- Hi]]. apply in_seq in Hi. simpl in Hi. lia.
  - intros H. exists (Z.to_nat (x + 10)). split; [lia|].
    apply in_seq. simpl. lia.
Qed.

Lemma In_gridCells (c : Cell) : In c gridCells <-> inGrid c.
Proof.
  destruct c as [x z]. unfold gridCells, inGrid, Cell.
  rewrite in_prod_iff, !In_axis. reflexivity.
Qed.

Lemma length_gridCells : List.length gridCells = 441%nat.
Proof. reflexivity. Qed.

(** Distinct cells of the grid are at most 441. *)
Lemma grid_capacity (l : list Cell) :
  NoDup l -> Forall inGrid l -> (List.length l <= 441)%nat.
Proof.
  intros Hnd Hin. rewrite <- length_gridCells.
  apply NoDup_incl_length; [exact Hnd|].
  intros c Hc. apply In_gridCells. rewrite Forall_forall in Hin. now apply Hin.
Qed.

(** 441 distinct cells of the grid are all of them. *)
Lemma grid_covered (l : list Cell) :
  NoDup l -> Forall inGrid l -> List.length l = 441%nat ->
  forall c, inGrid c -> In c l.
Proof.
  intros Hnd Hin Hlen c Hc.
  apply (NoDup_length_incl Hnd (l' := gridCells)).
  - rewrite length_gridCells. lia.
  - intros x Hx. apply In_gridCells. rewrite Forall_forall in Hin. now apply Hin.
  - now apply In_gridCells.
Qed.

(** X4. With draws in range, in every state a run reaches the snake has at
    most 440 cells and the score is at most 4370: the snake and the food
    are 1 + length distinct cells of a grid of 441. *)
Theorem score_is_bounded
  (saved : option JsNumber) (fuel : nat) (evs : list Event) (s : State) :
  inRange rnd ->
  run rnd fuel evs (boot saved) = Ok s ->
  (List.length (snake s) <= 440)%nat /\ score s <= 4370.
Proof.
  intros Hr Hrun.
  destruct (reachable_SnakeInv rnd _ _ _ _ Hrun) as [_ [Hnd Hfood]].
  pose proof (reachable_snake_inGrid rnd _ _ _ _ Hrun) as Hgrid.
  pose proof (reachable_food_inGrid rnd Hr _ _ _ _ Hrun) as Hfg.
  pose proof (reachable_score_length _ _ _ _ Hrun) as Hs.
  assert (Hcap : (List.length (food s :: snake s) <= 441)%nat).
  { apply grid_capacity; constructor; assumption. }
  simpl in Hcap. split; lia.
Qed.

(** X5. With draws in range, in every state a run reaches the food cell
    has both coordinates in [[-BOUNDARY, BOUNDARY]]. *)
Theorem food_stays_on_grid
  (saved : option JsNumber) (fuel : nat) (evs : list Event) (s : State) :
  inRange rnd ->
  run rnd fuel evs (boot saved) = Ok s ->
  - BOUNDARY <= fst (food s) <= BOUNDARY /\
  - BOUNDARY <= snd (food s) <= BOUNDARY.
Proof.
  intros Hr Hrun. exact (reachable_food_inGrid rnd Hr _ _ _ _ Hrun).
Qed.

(** *** The stored high score *)

Lemma reachable_StorageInv
  (saved : option JsNumber) (fuel : nat) (evs : list Event) (s : State) :
  run rnd fuel evs (boot saved) = Ok s -> StorageInv s.
Proof.
  apply (reachable_ind rnd StorageInv); clear.
  - intros saved. unfold boot, updateHighScore, loadHighScore, StorageInv.
    simpl storage. destruct saved as [[v|]|]; simpl.
    + destruct (0 >? v); simpl; auto.
    + auto.
    + auto.
  - intros k s H. unfold StorageInv in *.
    destruct (handleKeyDown_frame k s) as [_ [_ [_ [_ [-> _]]]]].
    destruct (handleKeyDown_frame_more k s) as [_ [-> _]]. exact H.
  - intros fuel s s' H _ Ht. unfold StorageInv in *.
    destruct (moveSnake_frame rnd _ _ _ Ht) as [_ [-> [-> _]]]. exact H.
  - intros fuel sp s s' H Hs. unfold StorageInv in *.
    destruct (startGame_cases rnd _ _ _ _ Hs) as [p [c [_ ->]]]. exact H.
  - intros s H. exact H.
  - intros s H. unfold StorageInv, updateHighScore in *.
    destruct (JsNumber_gtb (Num (score s)) (highScore s)); simpl; auto.
Qed.

(** X6. From every state a run reaches, loading the page again with the
    storage as that state left it starts with the same high score. *)
Theorem high_score_survives_reload
  (saved : option JsNumber) (fuel : nat) (evs : list Event) (s : State) :
  run rnd fuel evs (boot saved) = Ok s ->
  highScore (boot (storage s)) = highScore s.
Proof.
  intros Hrun.
  pose proof (reachable_StorageInv _ _ _ _ Hrun) as Hst.
  pose proof (reachable_ScoreInv rnd _ _ _ _ Hrun) as [H0 [_ Hle]].
  unfold boot, updateHighScore, loadHighScore. simpl storage.
  destruct Hst as [-> | [-> ->]]; simpl; [|reflexivity].
  destruct (highScore s) as [h|]; simpl; [|reflexivity].
  destruct (Z.gtb_spec 0 h); simpl; [lia | reflexivity].
Qed.

(** X13. In every state a run reaches, the game-over screen shows the
    line NEW HIGH SCORE! exactly when the game is over with a positive
    score equal to the high score; a score that only ties the stored high
    score shows it too. *)
Theorem new_high_score_banner
  (saved : option JsNumber) (fuel : nat) (evs : list Event) (s : State) :
  run rnd fuel evs (boot saved) = Ok s ->
  (showsNewHighScore s = true <->
   gameState s = GAME_OVER /\ highScore s = Num (score s) /\ 0 < score s).
Proof.
  intros Hrun.
  pose proof (reachable_ScoreInv rnd _ _ _ _ Hrun) as [_ [_ Hle]].
  unfold showsNewHighScore.
  rewrite !andb_true_iff, GameState_eqb_eq, Z.gtb_ltb, Z.ltb_lt.
  destruct (highScore s) as [h|]; simpl.
  - rewrite Z.geb_le. split.
    + intros [Hg [Hge Hp]].
      split; [exact Hg|]. split; [f_equal; lia | exact Hp].
    + intros [Hg [E Hp]]. inversion E; subst.
      split; [exact Hg|]. split; [lia | exact Hp].
  - split; [intros [_ [E _]] | intros [_ [E _]]]; discriminate.
Qed.

End Counting.

(** ** The state machine and the keys *)

Section Machine.

Variable rnd : nat -> Z.

(** X7. An event changes the game state only along three edges: a speed
    button takes MENU to PLAYING, a tick takes PLAYING to GAME_OVER, and
    the MAIN MENU button takes GAME_OVER to MENU. *)
Theorem gameState_transitions (fuel : nat) (e : Event) (s s' : State) :
  step rnd fuel e s = Ok s' ->
  gameState s' <> gameState s ->
  (gameState s = MENU /\ (exists n, e = ClickSpeed n) /\ gameState s' = PLAYING) \/
  (gameState s = PLAYING /\ e = Tick /\ gameState s' = GAME_OVER) \/
  (gameState s = GAME_OVER /\ e = ClickMainMenu /\ gameState s' = MENU).
Proof.
  intros H Hne. apply step_cases in H. destruct H as [s1 [H ->]].
  destruct (updateHighScore_frame s1) as [Hg _]. rewrite Hg in *. clear Hg.
  destruct (handle_cases rnd _ _ _ _ H)
    as [[k [_ ->]] | [[-> [Hg Ht]] | [[n [-> [Hg Hs]]] | [[-> [Hg ->]] | [-> _]]]]].
  - destruct (handleKeyDown_frame k s) as [E _]. congruence.
  - right; left.
    destruct (moveSnake_outcome rnd _ _ _ Ht)
      as [_ [_ [_ [_ [[_ [E _]] | [_ [_ [E _]]]]]]]]; [auto | congruence].
  - left. destruct (startGame_cases rnd _ _ _ _ Hs) as [p [c [_ ->]]].
    split; [exact Hg|]. split; [eauto | reflexivity].
  - right; right. auto.
  - congruence.
Qed.

(** X8. A key event never touches the game state, the snake, the food, the
    score, the high score, the storage, the speed or either direction: it
    leaves the move queue as it is or appends one unit direction to it. *)
Theorem key_event_only_queues (k : string) (s : State) :
  gameState (handleKeyDown k s) = gameState s /\
  snake (handleKeyDown k s) = snake s /\
  food (handleKeyDown k s) = food s /\
  score (handleKeyDown k s) = score s /\
  highScore (handleKeyDown k s) = highScore s /\
  storage (handleKeyDown k s) = storage s /\
  speed (handleKeyDown k s) = speed s /\
  direction (handleKeyDown k s) = direction s /\
  directionRef (handleKeyDown k s) = directionRef s /\
  (moveQueue (handleKeyDown k s) = moveQueue s \/
   exists d : Direction,
     isUnit d /\ moveQueue (handleKeyDown k s) = moveQueue s ++ [d]).
Proof.
  destruct (handleKeyDown_cases k s) as [E|[E|[d [Hd [_ E]]]]]; rewrite E;
    repeat (split; [reflexivity|]).
  - now left.
  - now left.
  - right. exists d. split; [exact Hd | reflexivity].
Qed.

(** X12. Pressing the space bar twice gives back the state: the view mode
    toggles and toggles back, and nothing else changes. *)
Theorem space_twice_is_identity (s : State) :
  handleKeyDown " " (handleKeyDown " " s) = s.
Proof.
  unfold handleKeyDown.
  destruct (GameState_eqb (gameState s) PLAYING) eqn:E; simpl.
  - rewrite E. simpl. destruct s as [g sp sc hs v sn f d dr q st c]. simpl.
    destruct v; reflexivity.
  - rewrite E. reflexivity.
Qed.

Lemma toLowerAscii_idempotent (c : ascii) :
  toLowerAscii (toLowerAscii c) = toLowerAscii c.
Proof.
  destruct c as [[] [] [] [] [] [] [] []]; reflexivity.
Qed.

Lemma toLowerCase_idempotent (k : string) :
  toLowerCase (toLowerCase k) = toLowerCase k.
Proof.
  induction k as [|c k IH]; simpl; [reflexivity|].
  now rewrite toLowerAscii_idempotent, IH.
Qed.

(** X14. The handler does not tell a key from its lowercase form: W and w,
    ArrowUp and arrowup are handled alike, in every state. *)
Theorem keys_ignore_case (k : string) (s : State) :
  handleKeyDown (toLowerCase k) s = handleKeyDown k s.
Proof.
  unfold handleKeyDown. now rewrite toLowerCase_idempotent.
Qed.

(** X15. A tick that returns ends the game exactly when its new head is
    off the grid or equals the snake cell at some index other than the
    last: while PLAYING the game never ends without such a collision. *)
Theorem game_over_iff_collision (fuel : nat) (s s' : State) :
  gameState s = PLAYING ->
  moveSnake rnd fuel s = Ok s' ->
  (gameState s' = GAME_OVER <->
   ~ inGrid (newHeadOf s) \/
   exists i : nat,
     (i < List.length (snake s) - 1)%nat /\
     nth_error (snake s) i = Some (newHeadOf s)).
Proof.
  intros Hg Ht.
  destruct (moveSnake_outcome rnd _ _ _ Ht) as [_ [_ [_ [_ Hc]]]].
  rewrite <- hitsSelf_index, <- hitsWall_inGrid.
  destruct Hc as [[Hhit [E _]] | [Hw [Hh [E _]]]].
  - split; [intros _|auto]. destruct Hhit as [Hw|Hh]; [left|right]; congruence.
  - split; [congruence|]. intros [Hw'|Hh']; congruence.
Qed.

(** X16. In a state a run has reached while PLAYING, a tick whose new head
    is the cell of the tail tip is a legal move: the tick returns whatever
    the fuel, the game goes on, the head takes the cell the tail tip
    leaves, and length and score are unchanged. *)
Theorem moving_onto_tail_tip_is_legal
  (saved : option JsNumber) (fuel : nat) (evs : list Event) (s : State) (fuel' : nat) :
  run rnd fuel evs (boot saved) = Ok s ->
  gameState s = PLAYING ->
  newHeadOf s = last (snake s) (0, 0) ->
  exists s' : State,
    moveSnake rnd fuel' s = Ok s' /\
    gameState s' = PLAYING /\
    snake s' = newHeadOf s :: removelast (snake s) /\
    List.length (snake s') = List.length (snake s) /\
    score s' = score s.
Proof.
  intros Hrun Hg Hlast.
  destruct (reachable_SnakeInv rnd _ _ _ _ Hrun) as [Hne [Hnd Hfood]].
  pose proof (reachable_snake_inGrid rnd _ _ _ _ Hrun) as Hgrid.
  assert (Hsplit : snake s = removelast (snake s) ++ [newHeadOf s])
    by (rewrite Hlast; apply app_removelast_last; exact Hne).
  assert (Hin : In (newHeadOf s) (snake s)).
  { rewrite Hsplit. apply in_or_app. right. now left. }
  assert (Hw : hitsWall (newHeadOf s) = false).
  { apply hitsWall_inGrid. rewrite Forall_forall in Hgrid. now apply Hgrid. }
  assert (Hh : hitsSelf (newHeadOf s) (snake s) = false).
  { destruct (hitsSelf (newHeadOf s) (snake s)) eqn:E; [|reflexivity].
    apply hitsSelf_removelast in E. rewrite Hsplit in Hnd.
    apply NoDup_remove_2 in Hnd. rewrite app_nil_r in Hnd. contradiction. }
  assert (Hf : cellEqb (newHeadOf s) (food s) = false).
  { apply cellEqb_neq. intros E. apply Hfood. now rewrite <- E. }
  assert (Hret : exists s', moveSnake rnd fuel' s = Ok s').
  { unfold moveSnake, advance. unfold newHeadOf in Hw, Hh, Hf.
    destruct (dequeue_frame s) as [_ [Hs [Hfd _]]]. rewrite Hs, Hfd.
    destruct (snake s) as [|h rest]; [congruence|]. simpl hd in *.
    rewrite Hw, Hh, Hf. eauto. }
  destruct Hret as [s' Ht]. exists s'. split; [exact Ht|].
  destruct (moveSnake_outcome rnd _ _ _ Ht) as [_ [_ [_ [_ Hc]]]].
  destruct Hc as [[[E|E] _] | [_ [_ [Eg [[E _] | [_ [Es [Esc _]]]]]]]];
    try congruence.
  split; [congruence|]. split; [exact Es|]. split; [|exact Esc].
  rewrite Es. destruct (snake s) as [|h rest]; [congruence|].
  cbn [List.length]. now rewrite length_removelast_cons.
Qed.

End Machine.

(** ** Games end, and the full grid *)

Section Endings.

Variable rnd : nat -> Z.

(** Outside PLAYING the ticks do nothing to the game state. *)
Lemma idle_ticks (fuel n : nat) (s s' : State) :
  gameState s <> PLAYING ->
  run rnd fuel (repeat Tick n) s = Ok s' ->
  gameState s' = gameState s.
Proof.
  revert s. induction n as [|n IH]; intros s Hg H; simpl in H.
  - now inversion H.
  - unfold step in H at 1. simpl in H.
    apply GameState_eqb_neq in Hg. rewrite Hg in H. simpl in H.
    apply GameState_eqb_neq in Hg.
    destruct (updateHighScore_frame s) as [E _].
    rewrite <- E. apply IH; [congruence | exact H].
Qed.

(** A tick after which the game goes on has moved the head. *)
Lemma playing_tick (fuel : nat) (s s1 : State) :
  step rnd fuel Tick s = Ok s1 ->
  gameState s1 = PLAYING ->
  gameState s = PLAYING /\
  moveQueue s1 = tl (moveQueue s) /\
  directionRef s1 = directionRef (dequeue s) /\
  hd (0, 0) (snake s1) = newHeadOf s.
Proof.
  intros H Hg. apply step_cases in H. destruct H as [s0 [H ->]].
  destruct (updateHighScore_frame s0) as [Eg [Es [_ [_ [Er Eq]]]]].
  rewrite Eg in Hg. rewrite Es, Er, Eq. clear Eg Es Er Eq.
  destruct (handle_cases rnd _ _ _ _ H)
    as [[k [E _]] | [[_ [Hp Ht]] | [[n [E _]] | [[E _] | [-> Hn]]]]];
    try discriminate; [|contradiction].
  split; [exact Hp|].
  destruct (moveSnake_outcome rnd _ _ _ Ht) as [_ [Hr [_ [Hq Hc]]]].
  split; [exact Hq|]. split; [exact Hr|].
  destruct Hc as [[_ [E _]] | [_ [_ [_ [[_ [-> _]] | [_ [-> _]]]]]]];
    [congruence | reflexivity | reflexivity].
Qed.

(** While the game goes on, [n] ticks take [n] moves off the queue, and,
    once the queue is empty, carry the head [n] cells along the direction
    in effect. *)
Lemma playing_ticks (fuel n : nat) (s s' : State) :
  run rnd fuel (repeat Tick n) s = Ok s' ->
  gameState s' = PLAYING ->
  moveQueue s' = skipn n (moveQueue s) /\
  (moveQueue s = [] ->
   directionRef s' = directionRef s /\
   hd (0, 0) (snake s') =
   (fst (hd (0, 0) (snake s)) + Z.of_nat n * fst (directionRef s),
    snd (hd (0, 0) (snake s)) + Z.of_nat n * snd (directionRef s))).
Proof.
  revert s. induction n as [|n IH]; intros s H Hg.
  - simpl in H. inversion H; subst. split; [reflexivity|].
    intros _. split; [reflexivity|].
    simpl. rewrite !Z.add_0_r. apply surjective_pairing.
  - simpl in H. destruct (step rnd fuel Tick s) as [s1| |] eqn:E1;
      simpl in H; try discriminate.
    assert (Hg1 : gameState s1 = PLAYING).
    { destruct (gameState s1) eqn:Eg; [|reflexivity|].
      - assert (Hn : gameState s1 <> PLAYING) by congruence.
        rewrite (idle_ticks _ _ _ _ Hn H) in Hg. congruence.
      - assert (Hn : gameState s1 <> PLAYING) by congruence.
        rewrite (idle_ticks _ _ _ _ Hn H) in Hg. congruence. }
    destruct (playing_tick _ _ _ E1 Hg1) as [_ [Hq [Hr Hh]]].
    destruct (IH s1 H Hg) as [IHq IHe].
    split.
    + rewrite IHq, Hq. destruct (moveQueue s) as [|d q]; [|reflexivity].
      simpl tl. now rewrite skipn_nil.
    + intros Hempty. rewrite Hempty in Hq. simpl in Hq.
      destruct (IHe Hq) as [IHr IHh].
      assert (Hd : dequeue s = s) by (unfold dequeue; now rewrite Hempty).
      unfold newHeadOf in Hh. rewrite Hd in Hr, Hh.
      rewrite IHr, IHh, Hr, Hh. split; [reflexivity|].
      unfold addDir. simpl fst. simpl snd. f_equal; lia.
Qed.

Lemma hd_In {A : Type} (d : A) (l : list A) : l <> [] -> In (hd d l) l.
Proof. destruct l; [congruence | intros _; now left]. Qed.

(** No run of as many ticks as there are queued moves plus 21, without
    key input, returns a state that is still PLAYING: on a straight course
    the head would have left the grid. *)
Lemma no_survivor_after_straight_course
  (saved : option JsNumber) (fuel : nat) (evs : list Event) (s : State)
  (n : nat) (s' : State) :
  run rnd fuel evs (boot saved) = Ok s ->
  (List.length (moveQueue s) + 21 <= n)%nat ->
  run rnd fuel (repeat Tick n) s = Ok s' ->
  gameState s' <> PLAYING.
Proof.
  intros Hrun Hn Ht Hg.
  set (q := List.length (moveQueue s)) in *.
  replace n with (q + (n - q))%nat in Ht by lia.
  rewrite repeat_app in Ht.
  destruct (run_split rnd _ _ _ _ _ Ht) as [m [H1 H2]].
  assert (Hgm : gameState m = PLAYING).
  { destruct (gameState m) eqn:Eg; [|reflexivity|].
    - assert (Hne : gameState m <> PLAYING) by congruence.
      rewrite (idle_ticks _ _ _ _ Hne H2) in Hg. congruence.
    - assert (Hne : gameState m <> PLAYING) by congruence.
      rewrite (idle_ticks _ _ _ _ Hne H2) in Hg. congruence. }
  destruct (playing_ticks _ _ _ _ H1 Hgm) as [Hq _].
  unfold q in Hq. rewrite skipn_all in Hq.
  destruct (playing_ticks _ _ _ _ H2 Hg) as [_ Hstraight].
  destruct (Hstraight Hq) as [_ Hhead].
  pose proof (run_app rnd _ _ _ _ _ _ Hrun H1) as Hrm.
  pose proof (run_app rnd _ _ _ _ _ _ Hrm H2) as Hrs.
  destruct (reachable_SnakeInv rnd _ _ _ _ Hrm) as [Hnem _].
  destruct (reachable_SnakeInv rnd _ _ _ _ Hrs) as [Hnes _].
  pose proof (reachable_snake_inGrid rnd _ _ _ _ Hrm) as Hgm'.
  pose proof (reachable_snake_inGrid rnd _ _ _ _ Hrs) as Hgs'.
  rewrite Forall_forall in Hgm', Hgs'.
  pose proof (Hgm' _ (hd_In (0, 0) _ Hnem)) as [Hx Hz].
  pose proof (Hgs' _ (hd_In (0, 0) _ Hnes)) as [Hx' Hz'].
  rewrite Hhead in Hx', Hz'. simpl fst in Hx'. simpl snd in Hz'.
  destruct (reachable_DirInv rnd _ _ _ _ Hrm) as [Hu _].
  rewrite BOUNDARY_eq in *.
  destruct Hu as [E | [E | [E | E]]]; rewrite E in Hx', Hz'; simpl in Hx', Hz'; lia.
Qed.

(** X11. In a state with draws in range where the snake has 440 distinct
    cells on the grid and the tick's new head is the food cell, in the grid
    and off the snake, the tick never returns: the grown snake covers the
    grid and the food placer has no cell left to find. *)
Theorem food_placement_hangs_on_full_grid (fuel : nat) (s : State) :
  inRange rnd ->
  NoDup (snake s) ->
  Forall inGrid (snake s) ->
  List.length (snake s) = 440%nat ->
  inGrid (food s) ->
  ~ In (food s) (snake s) ->
  newHeadOf s = food s ->
  moveSnake rnd fuel s = OutOfFuel.
Proof.
  intros Hr Hnd Hgrid Hlen Hfg Hfood Hhead.
  assert (Hw : hitsWall (newHeadOf s) = false)
    by (apply hitsWall_inGrid; now rewrite Hhead).
  assert (Hh : hitsSelf (newHeadOf s) (snake s) = false).
  { destruct (hitsSelf (newHeadOf s) (snake s)) eqn:E; [|reflexivity].
    apply hitsSelf_removelast in E. apply In_removelast in E.
    rewrite Hhead in E. contradiction. }
  assert (Hf : cellEqb (newHeadOf s) (food s) = true) by now apply cellEqb_eq.
  assert (Hfull : forall c, inGrid c -> In c (newHeadOf s :: snake s)).
  { apply grid_covered.
    - constructor; [now rewrite Hhead | exact Hnd].
    - constructor; [now rewrite Hhead | exact Hgrid].
    - simpl. now rewrite Hlen. }
  unfold moveSnake, advance. unfold newHeadOf in Hw, Hh, Hf, Hfull.
  destruct (dequeue_frame s) as [_ [Hs [Hfd [_ [_ Hc]]]]]. rewrite Hs, Hfd, Hc.
  destruct (snake s) as [|h rest]; [discriminate|]. simpl hd in *.
  rewrite Hw, Hh, Hf.
  now rewrite (getRandomPosition_full_grid rnd fuel (calls s) _ Hr Hfull).
Qed.

End Endings.

(** ** The further properties at concrete inputs *)

Lemma nodupb_NoDup (l : list Cell) : nodupb l = true -> NoDup l.
Proof.
  induction l as [|c r IH]; simpl; intros H; constructor.
  - apply andb_true_iff in H. destruct H as [H _].
    apply negb_true_iff in H. intros Hin.
    assert (E : existsb (cellEqb c) r = true).
    { apply existsb_exists. exists c. split; [exact Hin | now apply cellEqb_eq]. }
    congruence.
  - apply IH. apply andb_true_iff in H. apply H.
Qed.

Lemma forallb_inGrid (l : list Cell) :
  forallb (fun c => negb (hitsWall c)) l = true -> Forall inGrid l.
Proof.
  intros H. apply Forall_forall. intros c Hc.
  rewrite forallb_forall in H. apply hitsWall_inGrid.
  apply negb_true_iff. now apply H.
Qed.

Lemma snake_stays_on_grid_witness :
  exists s : State,
    run rndAhead 1 [ClickSpeed FAST; KeyDown "d"; Tick; Tick] (boot None) = Ok s /\
    In (2, 0) (snake s) /\
    inGrid (2, 0).
Proof.
  eexists. split; [vm_compute; reflexivity|].
  match goal with
  | |- ?A /\ _ => assert (Hin : A) by (now left)
  end.
  split; [exact Hin|].
  eapply snake_stays_on_grid
    with (rnd := rndAhead) (saved := None) (fuel := 1%nat)
         (evs := [ClickSpeed FAST; KeyDown "d"; Tick; Tick]);
    [ | exact Hin]; reflexivity.
Defined.

Lemma snake_is_connected_witness :
  exists s : State,
    run rndAhead 1 [ClickSpeed FAST; KeyDown "d"; Tick; KeyDown "s"; Tick] (boot None)
      = Ok s /\
    nth_error (snake s) 0 = Some (1, 1) /\
    nth_error (snake s) 1 = Some (1, 0) /\
    Z.abs (fst (1, 1) - fst (1, 0)) + Z.abs (snd (1, 1) - snd (1, 0)) = 1.
Proof.
  eexists. split; [vm_compute; reflexivity|].
  match goal with
  | |- ?A /\ ?B /\ _ =>
      assert (Ha : A) by reflexivity; assert (Hb : B) by reflexivity
  end.
  split; [exact Ha|]. split; [exact Hb|].
  eapply snake_is_connected
    with (rnd := rndAhead) (saved := None) (fuel := 1%nat) (i := 0%nat)
         (evs := [ClickSpeed FAST; KeyDown "d"; Tick; KeyDown "s"; Tick]);
    [ | exact Ha | exact Hb]; reflexivity.
Defined.

Lemma direction_is_unit_and_in_sync_witness :
  exists s : State,
    run rndAhead 1 [ClickSpeed FAST; KeyDown "d"; Tick] (boot None) = Ok s /\
    direction s = directionRef s /\
    (directionRef s = (0, -1) \/ directionRef s = (0, 1) \/
     directionRef s = (-1, 0) \/ directionRef s = (1, 0)).
Proof.
  eexists. split; [vm_compute; reflexivity|].
  apply (direction_is_unit_and_in_sync rndAhead None 1
           [ClickSpeed FAST; KeyDown "d"; Tick]); reflexivity.
Defined.

Lemma score_counts_growth_witness :
  exists s : State,
    run rndAhead 1 (ClickSpeed SLOW :: repeat Tick 5) (boot None) = Ok s /\
    List.length (snake s) = 6%nat /\
    (3 <= List.length (snake s))%nat /\
    score s = 10 * (Z.of_nat (List.length (snake s)) - 3).
Proof.
  eexists. split; [vm_compute; reflexivity|]. split; [reflexivity|].
  apply (score_counts_growth rndAhead None 1 (ClickSpeed SLOW :: repeat Tick 5));
    reflexivity.
Defined.

Lemma score_is_bounded_witness :
  exists s : State,
    inRange rndAhead /\
    run rndAhead 1 (ClickSpeed SLOW :: repeat Tick 5) (boot None) = Ok s /\
    (List.length (snake s) <= 440)%nat /\ score s <= 4370.
Proof.
  eexists. split; [exact rndAhead_inRange|]. split; [vm_compute; reflexivity|].
  apply (score_is_bounded rndAhead None 1 (ClickSpeed SLOW :: repeat Tick 5));
    [exact rndAhead_inRange | reflexivity].
Defined.

Lemma food_stays_on_grid_witness :
  exists s : State,
    inRange rndAhead /\
    run rndAhead 1 (ClickSpeed SLOW :: repeat Tick 5) (boot None) = Ok s /\
    - BOUNDARY <= fst (food s) <= BOUNDARY /\
    - BOUNDARY <= snd (food s) <= BOUNDARY.
Proof.
  eexists. split; [exact rndAhead_inRange|]. split; [vm_compute; reflexivity|].
  apply (food_stays_on_grid rndAhead None 1 (ClickSpeed SLOW :: repeat Tick 5));
    [exact rndAhead_inRange | reflexivity].
Defined.

Lemma high_score_survives_reload_witness :
  exists s : State,
    run rndAhead 1 (ClickSpeed SLOW :: repeat Tick 5) (boot (Some (Num 20))) = Ok s /\
    highScore s = Num 30 /\
    highScore (boot (storage s)) = highScore s.
Proof.
  eexists. split; [vm_compute; reflexivity|]. split; [reflexivity|].
  apply (high_score_survives_reload rndAhead (Some (Num 20)) 1
           (ClickSpeed SLOW :: repeat Tick 5)); reflexivity.
Defined.

Lemma new_high_score_banner_witness :
  exists s : State,
    run rndAhead 1
      (ClickSpeed SLOW :: repeat Tick 3 ++ KeyDown "a" :: repeat Tick 11)
      (boot (Some (Num 10))) = Ok s /\
    showsNewHighScore s = true /\
    (showsNewHighScore s = true <->
     gameState s = GAME_OVER /\ highScore s = Num (score s) /\ 0 < score s).
Proof.
  eexists. split; [vm_compute; reflexivity|]. split; [reflexivity|].
  apply (new_high_score_banner rndAhead (Some (Num 10)) 1
           (ClickSpeed SLOW :: repeat Tick 3 ++ KeyDown "a" :: repeat Tick 11));
    reflexivity.
Defined.

Lemma gameState_transitions_witness :
  exists s' : State,
    step rndZero 0 Tick atEastWall = Ok s' /\
    gameState s' <> gameState atEastWall /\
    ((gameState atEastWall = MENU /\ (exists n, Tick = ClickSpeed n) /\
      gameState s' = PLAYING) \/
     (gameState atEastWall = PLAYING /\ Tick = Tick /\ gameState s' = GAME_OVER) \/
     (gameState atEastWall = GAME_OVER /\ Tick = ClickMainMenu /\
      gameState s' = MENU)).
Proof.
  eexists. split; [vm_compute; reflexivity|]. split; [discriminate|].
  apply (gameState_transitions rndZero 0 Tick atEastWall);
    [reflexivity | discriminate].
Defined.

Lemma game_over_iff_collision_witness :
  exists s' : State,
    gameState atEastWall = PLAYING /\
    moveSnake rndZero 0 atEastWall = Ok s' /\
    (gameState s' = GAME_OVER <->
     ~ inGrid (newHeadOf atEastWall) \/
     exists i : nat,
       (i < List.length (snake atEastWall) - 1)%nat /\
       nth_error (snake atEastWall) i = Some (newHeadOf atEastWall)).
Proof.
  eexists. split; [reflexivity|]. split; [vm_compute; reflexivity|].
  apply (game_over_iff_collision rndZero 0 atEastWall); reflexivity.
Defined.

Lemma moving_onto_tail_tip_is_legal_witness :
  exists s : State,
    run rndAhead 1
      [ClickSpeed SLOW; Tick; Tick; Tick; KeyDown "a"; Tick; KeyDown "w"; Tick;
       KeyDown "d"] (boot None) = Ok s /\
    gameState s = PLAYING /\
    newHeadOf s = last (snake s) (0, 0) /\
    exists s' : State,
      moveSnake rndAhead 0 s = Ok s' /\
      gameState s' = PLAYING /\
      snake s' = newHeadOf s :: removelast (snake s) /\
      List.length (snake s') = List.length (snake s) /\
      score s' = score s.
Proof.
  eexists. split; [vm_compute; reflexivity|]. split; [reflexivity|].
  split; [reflexivity|].
  eapply moving_onto_tail_tip_is_legal
    with (saved := None) (fuel := 1%nat)
         (evs := [ClickSpeed SLOW; Tick; Tick; Tick; KeyDown "a"; Tick;
                  KeyDown "w"; Tick; KeyDown "d"]);
    reflexivity.
Defined.

Lemma food_placement_hangs_on_full_grid_witness :
  inRange rndZero /\
  NoDup (snake almostFull) /\
  Forall inGrid (snake almostFull) /\
  List.length (snake almostFull) = 440%nat /\
  inGrid (food almostFull) /\
  ~ In (food almostFull) (snake almostFull) /\
  newHeadOf almostFull = food almostFull /\
  moveSnake rndZero 1000 almostFull = OutOfFuel.
Proof.
  assert (Hnd : NoDup (snake almostFull))
    by (apply nodupb_NoDup; vm_compute; reflexivity).
  assert (Hgrid : Forall inGrid (snake almostFull))
    by (apply forallb_inGrid; vm_compute; reflexivity).
  assert (Hlen : List.length (snake almostFull) = 440%nat)
    by (vm_compute; reflexivity).
  assert (Hfg : inGrid (food almostFull))
    by (apply hitsWall_inGrid; vm_compute; reflexivity).
  assert (Hfood : ~ In (food almostFull) (snake almostFull))
    by (apply isOnSnake_free; vm_compute; reflexivity).
  assert (Hhead : newHeadOf almostFull = food almostFull)
    by (vm_compute; reflexivity).
  repeat (split; [assumption || exact rndZero_inRange|]).
  apply (food_placement_hangs_on_full_grid rndZero 1000 almostFull
           rndZero_inRange Hnd Hgrid Hlen Hfg Hfood Hhead).
Defined.

(** ** Unattended games end *)

Section Unattended.

Variable rnd : nat -> Z.

Lemma forallb_false_exists {A : Type} (f : A -> bool) (l : list A) :
  forallb f l = false -> exists x, In x l /\ f x = false.
Proof.
  induction l as [|a l IH]; simpl; [discriminate|].
  destruct (f a) eqn:E; simpl.
  - intros H. destruct (IH H) as [x [Hin Hx]]. exists x. auto.
  - intros _. exists a. auto.
Qed.

Lemma NoDup_gridCells : NoDup gridCells.
Proof. apply nodupb_NoDup. vm_compute. reflexivity. Qed.

(** Fewer than 441 cells leave a cell of the grid free. *)
Lemma free_cell_exists (l : list Cell) :
  (List.length l < 441)%nat -> exists c : Cell, inGrid c /\ ~ In c l.
Proof.
  intros Hlen.
  destruct (forallb (fun c => isOnSnake l (fst c) (snd c)) gridCells) eqn:E.
  - exfalso. rewrite forallb_forall in E.
    assert (Hincl : incl gridCells l).
    { intros c Hc. specialize (E c Hc). apply isOnSnake_In in E.
      now rewrite <- surjective_pairing in E. }
    pose proof (NoDup_incl_length NoDup_gridCells Hincl) as Hle.
    rewrite length_gridCells in Hle. lia.
  - apply forallb_false_exists in E. destruct E as [c [Hc Hf]].
    exists c. split; [now apply In_gridCells | now apply isOnSnake_free].
Qed.

(** *** More fuel changes no result *)

Lemma getRandomPosition_more_fuel
  (fuel fuel' n : nat) (occupied : list Cell) (r : Cell * nat) :
  getRandomPosition rnd fuel n occupied = Ok r ->
  (fuel <= fuel')%nat ->
  getRandomPosition rnd fuel' n occupied = Ok r.
Proof.
  revert fuel' n. induction fuel as [|fuel IH]; intros fuel' n H Hle; [discriminate|].
  destruct fuel' as [|fuel']; [lia|]. simpl in *.
  destruct (isOnSnake occupied (rnd n - BOUNDARY) (rnd (S n) - BOUNDARY));
    [apply IH; [exact H | lia] | exact H].
Qed.

Lemma moveSnake_more_fuel (fuel fuel' : nat) (s s' : State) :
  moveSnake rnd fuel s = Ok s' ->
  (fuel <= fuel')%nat ->
  moveSnake rnd fuel' s = Ok s'.
Proof.
  unfold moveSnake, advance. intros H Hle.
  destruct (snake (dequeue s)) as [|head rest]; [discriminate|].
  destruct (hitsWall (addDir head (directionRef (dequeue s)))); [exact H|].
  destruct (hitsSelf (addDir head (directionRef (dequeue s))) (head :: rest));
    [exact H|].
  destruct (cellEqb (addDir head (directionRef (dequeue s))) (food (dequeue s)));
    [|exact H].
  destruct (getRandomPosition rnd fuel (calls (dequeue s))
              (addDir head (directionRef (dequeue s)) :: head :: rest))
    as [r| |] eqn:E; simpl in H; try discriminate.
  rewrite (getRandomPosition_more_fuel _ _ _ _ _ E Hle). exact H.
Qed.

Lemma startGame_more_fuel (fuel fuel' : nat) (sp : Z) (s s' : State) :
  startGame rnd fuel sp s = Ok s' ->
  (fuel <= fuel')%nat ->
  startGame rnd fuel' sp s = Ok s'.
Proof.
  unfold startGame. simpl calls. intros H Hle.
  destruct (getRandomPosition rnd fuel (calls s) [(0, 0); (0, -1); (0, -2)])
    as [r| |] eqn:E; simpl in H; try discriminate.
  rewrite (getRandomPosition_more_fuel _ _ _ _ _ E Hle). exact H.
Qed.

Lemma step_more_fuel (fuel fuel' : nat) (e : Event) (s s' : State) :
  step rnd fuel e s = Ok s' ->
  (fuel <= fuel')%nat ->
  step rnd fuel' e s = Ok s'.
Proof.
  unfold step. intros H Hle.
  destruct (handle rnd fuel e s) as [s1| |] eqn:E; simpl in H; try discriminate.
  assert (E' : handle rnd fuel' e s = Ok s1).
  { destruct e as [k| |n|]; simpl in *; try exact E.
    - destruct (GameState_eqb (gameState s) PLAYING); [|exact E].
      eapply moveSnake_more_fuel; eassumption.
    - destruct (GameState_eqb (gameState s) MENU); [|exact E].
      eapply startGame_more_fuel; eassumption. }
  rewrite E'. exact H.
Qed.

Lemma run_more_fuel (fuel fuel' : nat) (evs : list Event) (s s' : State) :
  run rnd fuel evs s = Ok s' ->
  (fuel <= fuel')%nat ->
  run rnd fuel' evs s = Ok s'.
Proof.
  revert s. induction evs as [|e evs IH]; intros s H Hle; simpl in *; [exact H|].
  destruct (step rnd fuel e s) as [s1| |] eqn:E; simpl in H; try discriminate.
  rewrite (step_more_fuel _ _ _ _ _ E Hle). simpl. now apply IH.
Qed.

(** *** The random source is read in pairs *)

Lemma moveSnake_calls (fuel : nat) (s s' : State) :
  moveSnake rnd fuel s = Ok s' ->
  exists k : nat, calls s' = (calls s + 2 * k)%nat.
Proof.
  unfold moveSnake. intros H.
  destruct (advance_cases rnd fuel _ _ H) as [head [rest [_ Hc]]].
  destruct (dequeue_frame s) as [_ [_ [_ [_ [_ Ec]]]]].
  destruct Hc as [[_ ->] | [[_ [_ [_ [p [c [Hg ->]]]]]] | [_ [_ [_ ->]]]]]; simpl.
  - exists 0%nat. lia.
  - apply getRandomPosition_sound in Hg. destruct Hg as [_ [k [_ ->]]].
    exists (S k). lia.
  - exists 0%nat. lia.
Qed.

Lemma updateHighScore_calls (s : State) : calls (updateHighScore s) = calls s.
Proof.
  unfold updateHighScore.
  destruct (JsNumber_gtb (Num (score s)) (highScore s)); reflexivity.
Qed.

Lemma reachable_calls_even
  (saved : option JsNumber) (fuel : nat) (evs : list Event) (s : State) :
  run rnd fuel evs (boot saved) = Ok s -> Nat.even (calls s) = true.
Proof.
  apply (reachable_ind rnd (fun s => Nat.even (calls s) = true)); clear.
  - intros saved. unfold boot. rewrite updateHighScore_calls.
    unfold loadHighScore. destruct (storage (initialState saved)); reflexivity.
  - intros k s H. destruct (handleKeyDown_frame_more k s) as [_ [_ [_ ->]]]. exact H.
  - intros fuel s s' H _ Ht. destruct (moveSnake_calls _ _ _ Ht) as [k ->].
    now rewrite Nat.even_add_mul_2.
  - intros fuel sp s s' H Hs.
    destruct (startGame_cases rnd _ _ _ _ Hs) as [p [c [Hg ->]]]. simpl.
    apply getRandomPosition_sound in Hg. destruct Hg as [_ [k [_ ->]]].
    replace (calls s + 2 * k + 2)%nat with (calls s + 2 * (S k))%nat by lia.
    now rewrite Nat.even_add_mul_2.
  - intros s H. exact H.
  - intros s H. now rewrite updateHighScore_calls.
Qed.

(** *** Every tick returns while the grid has room *)

Lemma moveSnake_returns_on_recurrent (s : State) :
  recurrent rnd ->
  snake s <> [] ->
  Nat.even (calls s) = true ->
  (List.length (snake s) < 440)%nat ->
  exists (fuel : nat) (s' : State), moveSnake rnd fuel s = Ok s'.
Proof.
  intros Hrec Hne Hev Hlen. apply moveSnake_returns; [exact Hne|]. intros _.
  destruct (free_cell_exists (newHeadOf s :: snake s)) as [c [Hc Hfree]];
    [simpl; lia|].
  destruct (Hrec (calls s) c Hev Hc) as [k Hk].
  exists k. rewrite Hk. now apply isOnSnake_free.
Qed.

Lemma ticks_return (n : nat) (s : State) :
  recurrent rnd ->
  snake s <> [] ->
  Nat.even (calls s) = true ->
  (List.length (snake s) + n <= 440)%nat ->
  exists (fuel : nat) (s' : State), run rnd fuel (repeat Tick n) s = Ok s'.
Proof.
  intros Hrec. revert s. induction n as [|n IH]; intros s Hne Hev Hlen.
  - exists 0%nat, s. reflexivity.
  - assert (Hstep : exists (fuel1 : nat) (s1 : State),
               step rnd fuel1 Tick s = Ok s1 /\
               snake s1 <> [] /\ Nat.even (calls s1) = true /\
               (List.length (snake s1) <= S (List.length (snake s)))%nat).
    { unfold step, handle.
      destruct (GameState_eqb (gameState s) PLAYING).
      - destruct (moveSnake_returns_on_recurrent s Hrec Hne Hev) as [fuel1 [s1 Ht]];
          [lia|].
        exists fuel1, (updateHighScore s1). rewrite Ht. split; [reflexivity|].
        destruct (updateHighScore_frame s1) as [_ [Es _]].
        rewrite Es, updateHighScore_calls.
        destruct (moveSnake_calls _ _ _ Ht) as [k Ek].
        split; [|split].
        + destruct (moveSnake_outcome rnd _ _ _ Ht)
            as [_ [_ [_ [_ [[_ [_ [-> _]]] |
                            [_ [_ [_ [[_ [-> _]] | [_ [-> _]]]]]]]]]]];
            [exact Hne | discriminate | discriminate].
        + rewrite Ek. now rewrite Nat.even_add_mul_2.
        + destruct (moveSnake_outcome rnd _ _ _ Ht)
            as [_ [_ [_ [_ [[_ [_ [-> _]]] |
                            [_ [_ [_ [[_ [-> _]] | [_ [-> _]]]]]]]]]]].
          * lia.
          * simpl. lia.
          * destruct (snake s) as [|h rest]; [congruence|].
            cbn [List.length]. rewrite length_removelast_cons. simpl. lia.
      - exists 0%nat, (updateHighScore s). split; [reflexivity|].
        destruct (updateHighScore_frame s) as [_ [Es _]].
        rewrite Es, updateHighScore_calls. repeat split; auto. }
    destruct Hstep as [fuel1 [s1 [H1 [Hne1 [Hev1 Hlen1]]]]].
    destruct (IH s1 Hne1 Hev1) as [fuel2 [s' H2]]; [lia|].
    exists (Nat.max fuel1 fuel2), s'. simpl.
    rewrite (step_more_fuel _ (Nat.max fuel1 fuel2) _ _ _ H1); [|lia].
    simpl. apply (run_more_fuel fuel2); [exact H2 | lia].
Qed.

(** X10. Under a random source that keeps sampling every cell of the
    grid, from any state a run has reached, a sequence of ticks without key
    input that is at least 21 longer than the move queue, and short enough
    for the snake not to fill the grid, returns for some fuel, and the
    state it returns, whatever the fuel, is no longer PLAYING: the game
    has ended at a wall or on the snake. *)
Theorem unattended_game_ends
  (saved : option JsNumber) (fuel : nat) (evs : list Event) (s : State) (n : nat) :
  recurrent rnd ->
  run rnd fuel evs (boot saved) = Ok s ->
  (List.length (moveQueue s) + 21 <= n)%nat ->
  (List.length (snake s) + n <= 440)%nat ->
  exists (fuel' : nat) (s' : State),
    run rnd fuel' (repeat Tick n) s = Ok s' /\
    gameState s' <> PLAYING /\
    forall (fuel2 : nat) (s2 : State),
      run rnd fuel2 (repeat Tick n) s = Ok s2 -> gameState s2 <> PLAYING.
Proof.
  intros Hrec Hrun Hn Hlen.
  assert (Hall : forall fuel2 s2,
             run rnd fuel2 (repeat Tick n) s = Ok s2 -> gameState s2 <> PLAYING).
  { intros fuel2 s2 H2.
    apply (no_survivor_after_straight_course rnd saved (Nat.max fuel fuel2) evs s n s2).
    - apply (run_more_fuel fuel); [exact Hrun | lia].
    - exact Hn.
    - apply (run_more_fuel fuel2); [exact H2 | lia]. }
  destruct (reachable_SnakeInv rnd _ _ _ _ Hrun) as [Hne _].
  pose proof (reachable_calls_even _ _ _ _ Hrun) as Hev.
  destruct (ticks_return n s Hrec Hne Hev Hlen) as [fuel' [s' H']].
  exists fuel', s'. split; [exact H'|]. split; [now apply (Hall fuel')|exact Hall].
Qed.

End Unattended.

Lemma rndSweep_sample (m : nat) :
  sample rndSweep (2 * m) =
  (Z.of_nat m mod 21 - 10, (Z.of_nat m / 21) mod 21 - 10).
Proof.
  unfold sample, rndSweep. rewrite BOUNDARY_eq.
  assert (E0 : Nat.even (2 * m) = true) by (rewrite Nat.even_mul; reflexivity).
  assert (E1 : Nat.even (S (2 * m)) = false).
  { rewrite Nat.even_succ, <- Nat.negb_even, E0. reflexivity. }
  rewrite E0, E1.
  assert (D0 : Z.of_nat (2 * m / 2) = Z.of_nat m).
  { rewrite Nat2Z.inj_div. Z.to_euclidean_division_equations. lia. }
  assert (D1 : Z.of_nat (S (2 * m) / 2) = Z.of_nat m).
  { rewrite Nat2Z.inj_div. Z.to_euclidean_division_equations. lia. }
  now rewrite D0, D1.
Qed.

Lemma rndSweep_recurrent : recurrent rndSweep.
Proof.
  intros n [x z] Hev [Hx Hz]. rewrite BOUNDARY_eq in Hx, Hz. simpl in Hx, Hz.
  apply Nat.even_spec in Hev. destruct Hev as [j ->].
  set (M := 441 * (Z.of_nat j + 1) + 21 * (z + 10) + (x + 10)).
  exists (Z.to_nat M - j)%nat.
  replace (2 * j + 2 * (Z.to_nat M - j))%nat with (2 * Z.to_nat M)%nat
    by (unfold M; lia).
  rewrite rndSweep_sample. rewrite Z2Nat.id by (unfold M; lia).
  f_equal; unfold M; Z.to_euclidean_division_equations; lia.
Qed.

Lemma unattended_game_ends_witness :
  exists s : State,
    recurrent rndSweep /\
    run rndSweep 1 [ClickSpeed MEDIUM; KeyDown "a"; KeyDown "w"] (boot None) = Ok s /\
    (List.length (moveQueue s) + 21 <= 23)%nat /\
    (List.length (snake s) + 23 <= 440)%nat /\
    exists (fuel' : nat) (s' : State),
      run rndSweep fuel' (repeat Tick 23) s = Ok s' /\
      gameState s' <> PLAYING /\
      forall (fuel2 : nat) (s2 : State),
        run rndSweep fuel2 (repeat Tick 23) s = Ok s2 -> gameState s2 <> PLAYING.
Proof.
  eexists. split; [exact rndSweep_recurrent|].
  split; [vm_compute; reflexivity|].
  split; [simpl; lia|]. split; [simpl; lia|].
  apply (unattended_game_ends rndSweep None 1
           [ClickSpeed MEDIUM; KeyDown "a"; KeyDown "w"]).
  - exact rndSweep_recurrent.
  - reflexivity.
  - simpl; lia.
  - simpl; lia.
Defined.
